(** * The Nachos trap boundary: [code/userprog/exception.cc]

    A shallow embedding of [ExceptionHandler] and [IncreasePC] and the
    properties of the system-call dispatcher.

    The handler is straight-line code over a set of kernel globals
    ([machine], [fileSystem], [synchConsole], [currentThread], [pTable],
    [interrupt]).  The globals become one record, the handler a program in
    a state monad over that record whose result also says whether control
    came back to the caller, and every call into a collaborator leaves an
    event in a trace, so that the order of the calls can be stated. *)

From Stdlib Require Import ZArith String List Lia Strings.Byte Ascii.
From stdpp Require Import base gmap strings list functions.

Local Open Scope Z_scope.

(** ** Machine integers

    Registers are C++ [int]s (32 bits, two's complement); the loop counters
    of the read and write calls are [unsigned]. *)

Definition INT_MIN : Z := - 2 ^ 31.
Definition INT_MAX : Z := 2 ^ 31 - 1.
Definition UINT_MAX : Z := 2 ^ 32 - 1.

Definition is_int (n : Z) : Prop := INT_MIN <= n <= INT_MAX.

(** Conversion of a value to [unsigned], as the usual arithmetic
    conversions do in [i < size]. *)
Definition to_unsigned (n : Z) : Z := n mod 2 ^ 32.

(** Conversion of a value to [int], as in [readLength = i]. *)
Definition to_int (n : Z) : Z := (n + 2 ^ 31) mod 2 ^ 32 - 2 ^ 31.

(** [pc += 4] on an [int]. *)
Definition int_add (a b : Z) : Z := to_int (a + b).

(** ** Constants of the headers

    [syscall.h] and [machine.hh] are not among the sources at hand, nor is
    [thread.hh], which sizes the kernel stacks.  The constants the handler
    takes from them, and the room a kernel stack has for the handler's
    local array, are parameters of the model. *)

Class MachineConsts := {
  SC_Halt : Z;
  SC_Exit : Z;
  SC_Exec : Z;
  SC_Join : Z;
  SC_Create : Z;
  SC_Open : Z;
  SC_Read : Z;
  SC_Write : Z;
  SC_Close : Z;
  ConsoleInput : Z;
  ConsoleOutput : Z;
  SYSCALL_EXCEPTION : Z;
  PC_REG : Z;
  NEXT_PC_REG : Z;
  PREV_PC_REG : Z;
  (** capacity of a thread's descriptor table *)
  NumOpenFiles : nat;
  (** bytes the kernel stack of a thread has left where the handler
      declares its local array: the largest array that fits *)
  StackRoom : Z
}.

(** The nine case labels of the [switch], in the order of the source. *)
Definition syscall_codes `{MachineConsts} : list Z :=
  [SC_Halt; SC_Create; SC_Read; SC_Write; SC_Open; SC_Close; SC_Exit;
   SC_Join; SC_Exec].

(** Case labels of one [switch] are pairwise different, or the file would
    not compile. *)
Definition codes_distinct `{MachineConsts} : Prop := NoDup syscall_codes.

(** The three program-counter registers are three registers, and none of
    them is [r2] or one of the argument registers [r4]..[r7]. *)
Definition pc_regs_distinct `{MachineConsts} : Prop :=
  NoDup [PC_REG; NEXT_PC_REG; PREV_PC_REG].

Definition pc_regs_apart `{MachineConsts} : Prop :=
  NoDup [2; 4; 5; 6; 7; PC_REG; NEXT_PC_REG; PREV_PC_REG].

(** ** Kernel objects *)

(** An open file, as [fileSystem->Open] hands it out. *)
Record OpenFile := { of_name : string }.

Record AddressSpace := { executable : OpenFile }.

(** The routine a forked thread starts in. *)
Inductive Entry := InitUserProc.

Record Thread := {
  th_name : string;
  space : option AddressSpace;
  (** the descriptor table: handle -> open file *)
  files : gmap Z OpenFile;
  sid : Z;
  (** the status handed to [Finish], once it has run *)
  exitStatus : option Z;
  (** entry routine and the user address of the saved arguments, once
      forked *)
  forked : option (Entry * Z)
}.

Record Machine := {
  registers : Z -> Z;
  mainMemory : Z -> byte
}.

Record Console := {
  (** the characters the console delivers, in order *)
  incoming : nat -> byte;
  (** how many of them have come in so far *)
  arrived : nat;
  (** how many of them have been taken by [GetChar] *)
  consumed : nat;
  (** the characters written by [PutChar], oldest first *)
  written : list byte
}.

(** Calls into the collaborators, in the order they happen. *)
Inductive Event :=
| EvDebug (flag : ascii) (msg : string)
| EvHalt
| EvPrintf (fmt : string) (args : list Z)
| EvAssertFail
| EvWriteRegister (r v : Z)
| EvReadStringFromUser (addr : Z) (s : string)
| EvReadBufferFromUser (addr size : Z)
| EvWriteBufferToUser (addr size : Z)
| EvCreate (name : string)
| EvOpen (name : string) (file : option OpenFile)
| EvGetChar (c : byte)
| EvPutChar (c : byte)
| EvAddFile (file : OpenFile) (fid : Z)
| EvDelete (file : OpenFile)
| EvRemoveFile (fid : Z)
| EvRemoveAllFiles
| EvFinish (status : Z)
| EvGet (pid : Z) (thread : option Z)
| EvJoin (thread : option Z)
| EvNewThread (name : string) (thread : Z)
| EvNewAddressSpace (file : OpenFile)
| EvSaveArgs (pargs : Z)
| EvFork (thread : Z) (entry : Entry) (args : Z).

Record Kernel := {
  machine : Machine;
  (** the kernel stack from the start of the handler's local array
      [buffer] on: once the array is declared, [buffer[i]] is cell [i] *)
  stack : Z -> byte;
  fileSystem : gset string;
  synchConsole : Console;
  (** all thread objects, by address *)
  threads : gmap Z Thread;
  currentThread : Z;
  (** process id -> thread *)
  pTable : gmap Z Z;
  trace : list Event
}.

(** Field updates. *)

Definition with_machine (f : Machine -> Machine) (k : Kernel) : Kernel :=
  {| machine := f (machine k); stack := stack k;
     fileSystem := fileSystem k; synchConsole := synchConsole k;
     threads := threads k; currentThread := currentThread k;
     pTable := pTable k; trace := trace k |}.

Definition with_stack (f : (Z -> byte) -> Z -> byte) (k : Kernel) : Kernel :=
  {| machine := machine k; stack := f (stack k);
     fileSystem := fileSystem k; synchConsole := synchConsole k;
     threads := threads k; currentThread := currentThread k;
     pTable := pTable k; trace := trace k |}.

Definition with_fileSystem (f : gset string -> gset string) (k : Kernel)
  : Kernel :=
  {| machine := machine k; stack := stack k;
     fileSystem := f (fileSystem k); synchConsole := synchConsole k;
     threads := threads k; currentThread := currentThread k;
     pTable := pTable k; trace := trace k |}.

Definition with_synchConsole (f : Console -> Console) (k : Kernel) : Kernel :=
  {| machine := machine k; stack := stack k;
     fileSystem := fileSystem k; synchConsole := f (synchConsole k);
     threads := threads k; currentThread := currentThread k;
     pTable := pTable k; trace := trace k |}.

Definition with_threads (f : gmap Z Thread -> gmap Z Thread) (k : Kernel)
  : Kernel :=
  {| machine := machine k; stack := stack k;
     fileSystem := fileSystem k; synchConsole := synchConsole k;
     threads := f (threads k); currentThread := currentThread k;
     pTable := pTable k; trace := trace k |}.

Definition with_pTable (f : gmap Z Z -> gmap Z Z) (k : Kernel) : Kernel :=
  {| machine := machine k; stack := stack k;
     fileSystem := fileSystem k; synchConsole := synchConsole k;
     threads := threads k; currentThread := currentThread k;
     pTable := f (pTable k); trace := trace k |}.

Definition with_trace (f : list Event -> list Event) (k : Kernel) : Kernel :=
  {| machine := machine k; stack := stack k;
     fileSystem := fileSystem k; synchConsole := synchConsole k;
     threads := threads k; currentThread := currentThread k;
     pTable := pTable k; trace := f (trace k) |}.

Definition with_registers (f : (Z -> Z) -> Z -> Z) (m : Machine) : Machine :=
  {| registers := f (registers m); mainMemory := mainMemory m |}.

Definition with_mainMemory (f : (Z -> byte) -> Z -> byte) (m : Machine)
  : Machine :=
  {| registers := registers m; mainMemory := f (mainMemory m) |}.

Definition with_files (f : gmap Z OpenFile -> gmap Z OpenFile) (t : Thread)
  : Thread :=
  {| th_name := th_name t; space := space t; files := f (files t);
     sid := sid t; exitStatus := exitStatus t; forked := forked t |}.

Definition with_space (a : AddressSpace) (t : Thread) : Thread :=
  {| th_name := th_name t; space := Some a; files := files t;
     sid := sid t; exitStatus := exitStatus t; forked := forked t |}.

Definition with_exitStatus (s : Z) (t : Thread) : Thread :=
  {| th_name := th_name t; space := space t; files := files t;
     sid := sid t; exitStatus := Some s; forked := forked t |}.

Definition with_forked (e : Entry) (args : Z) (t : Thread) : Thread :=
  {| th_name := th_name t; space := space t; files := files t;
     sid := sid t; exitStatus := exitStatus t; forked := Some (e, args) |}.

(** ** Kernel code as a state monad

    A piece of kernel code either comes back with a value, or control
    leaves it for one of the reasons of [Stop]; both carry the kernel
    state reached. *)

Inductive Stop :=
| Halted        (** [interrupt->Halt()]: the machine is shut down *)
| Aborted       (** a failed [ASSERT]: the kernel aborts *)
| Finished      (** [Thread::Finish]: the calling thread is gone *)
| Blocked       (** waiting in [Thread::Join] for a thread still running,
                    or in [GetChar] for a character still to come *)
| NullPointer   (** a member call through a null [Thread *] *)
| Overflow      (** a local array the kernel stack has no room for *)
| Undefined.    (** an array declared with a negative length, or an index
                    outside its array: the program has no defined
                    behaviour from here on *)

Inductive Result (A : Type) :=
| Done (a : A) (k : Kernel)
| Stopped (why : Stop) (k : Kernel).

Arguments Done {A} a k.
Arguments Stopped {A} why k.

Definition M (A : Type) : Type := Kernel -> Result A.

Definition ret {A} (a : A) : M A := fun k => Done a k.

Definition bind {A B} (m : M A) (f : A -> M B) : M B :=
  fun k =>
    match m k with
    | Done a k' => f a k'
    | Stopped w k' => Stopped w k'
    end.

Definition gets {A} (f : Kernel -> A) : M A := fun k => Done (f k) k.
Definition modify (f : Kernel -> Kernel) : M unit := fun k => Done tt (f k).
Definition stop {A} (w : Stop) : M A := fun k => Stopped w k.

Declare Scope kernel_scope.
Delimit Scope kernel_scope with kernel.
Bind Scope kernel_scope with M.

Notation "x <- m ;; f" := (bind m (fun x => f))
  (at level 100, m at next level, right associativity) : kernel_scope.
Notation "m ;; f" := (bind m (fun _ => f))
  (at level 100, f at level 200, right associativity) : kernel_scope.

Local Open Scope kernel_scope.

(** The state the kernel is left in, however control left the code. *)
Definition final {A} (r : Result A) : Kernel :=
  match r with Done _ k => k | Stopped _ k => k end.

Definition log (e : Event) : M unit :=
  modify (with_trace (fun t => t ++ [e])).

(** ** The collaborators

    Only the handler is among the sources; what it calls is modelled from
    the interfaces the specification gives for it.  Nothing below reads a
    register, a byte of user memory or a table other than through these
    definitions. *)

Section Trap.
Context `{MachineConsts}.

(** Modelled from the spec: the register file of the machine, read and
    written one slot at a time ([machine.cc] is missing). *)
Definition ReadRegister (r : Z) : M Z :=
  gets (fun k => registers (machine k) r).

Definition WriteRegister (r v : Z) : M unit :=
  modify (with_machine (with_registers <[r := v]>));;
  log (EvWriteRegister r v).

(** The bytes of the string at [addr]: up to the first NUL, [n] at most. *)
Fixpoint read_cstring (mem : Z -> byte) (addr : Z) (n : nat) : list byte :=
  match n with
  | O => []
  | S n' =>
      let b := mem addr in
      if Byte.eqb b x00 then [] else b :: read_cstring mem (addr + 1) n'
  end.

(** Modelled from the spec: user-memory marshaling ([args.cc] is missing):
    "copy byte-by-byte"; the string variant stops "at the first NUL byte
    encountered or after reaching a caller-supplied maximum length" and
    leaves the kernel buffer NUL-terminated, so [max - 1] bytes at most
    are content.  The handler ignores whatever these calls report, so no
    failure is modelled. *)
Definition user_string (k : Kernel) (addr max : Z) : string :=
  string_of_list_byte
    (read_cstring (mainMemory (machine k)) addr (Z.to_nat (max - 1))).

Definition ReadStringFromUser (addr max : Z) : M string :=
  s <- gets (fun k => user_string k addr max);;
  log (EvReadStringFromUser addr s);;
  ret s.

(** Modelled from the spec: fills [buffer[0 .. size-1]] from user memory
    ([args.cc] is missing); a count that is not positive copies nothing. *)
Definition ReadBufferFromUser (addr size : Z) : M unit :=
  mem <- gets (fun k => mainMemory (machine k));;
  modify (with_stack (fun buffer i =>
    if bool_decide (0 <= i < size) then mem (addr + i) else buffer i));;
  log (EvReadBufferFromUser addr size).

(** Modelled from the spec: copies [buffer[0 .. size-1]] to user memory
    ([args.cc] is missing); a count that is not positive copies nothing. *)
Definition WriteBufferToUser (addr size : Z) : M unit :=
  buffer <- gets stack;;
  modify (with_machine (with_mainMemory (fun mem a =>
    if bool_decide (addr <= a < addr + size) then buffer (a - addr)
    else mem a)));;
  log (EvWriteBufferToUser addr size).

(** [char buffer[size]]: a variable-length array on the kernel stack.
    The length is the [int] as it comes.  One that is negative gives the
    declaration no meaning; one that is larger than what the stack has
    left takes the stack pointer out of the stack, and the thread faults
    at its next use of the stack, before any callee runs.  A length of
    zero declares an array without cells, which GNU C++ accepts. *)
Definition declare_array (size : Z) : M unit :=
  if size <? 0 then stop Undefined
  else if StackRoom <? size then stop Overflow
  else ret tt.

(** [buffer[i] = c] and [buffer[i]] on an array declared with [len]
    cells.  The code checks no bound; an index outside the array is a
    stack overrun. *)
Definition store (len i : Z) (c : byte) : M unit :=
  if bool_decide (0 <= i < len) then modify (with_stack <[i := c]>)
  else stop Undefined.

Definition load (len i : Z) : M byte :=
  if bool_decide (0 <= i < len) then gets (fun k => stack k i)
  else stop Undefined.

(** Modelled from the spec: the file system, "Create(name, flag)" and
    "Open(name) -> file-or-none" (the file system is missing). *)
Definition FileSystem_Create (name : string) (initialSize : Z) : M bool :=
  modify (with_fileSystem (fun fs => {[name]} ∪ fs));;
  log (EvCreate name);;
  ret true.

Definition FileSystem_Open (name : string) : M (option OpenFile) :=
  fs <- gets fileSystem;;
  let file := if bool_decide (name ∈ fs) then Some {| of_name := name |}
              else None in
  log (EvOpen name file);;
  ret file.

(** Modelled from the spec: the console, "blocking GetChar() -> byte" and
    "blocking PutChar(byte)" (the console is missing); console I/O "blocks
    on the console's internal synchronization until a character is
    available/space exists".  [GetChar] comes back with the next character
    once one has come in; while none has, the thread waits.  [PutChar]
    waits for the device to take the character, which needs nothing from
    outside the console. *)
Definition GetChar : M byte :=
  con <- gets synchConsole;;
  if (consumed con <? arrived con)%nat then
    modify (with_synchConsole (fun con =>
      {| incoming := incoming con; arrived := arrived con;
         consumed := S (consumed con); written := written con |}));;
    log (EvGetChar (incoming con (consumed con)));;
    ret (incoming con (consumed con))
  else stop Blocked.

Definition PutChar (c : byte) : M unit :=
  modify (with_synchConsole (fun con =>
    {| incoming := incoming con; arrived := arrived con;
       consumed := consumed con; written := written con ++ [c] |}));;
  log (EvPutChar c).

(** The descriptor table of the running thread. *)
Definition current_files (k : Kernel) : gmap Z OpenFile :=
  default ∅ (files <$> threads k !! currentThread k).

Definition on_current (f : Thread -> Thread) : M unit :=
  modify (fun k => with_threads (alter f (currentThread k)) k).

(** The smallest handle from [h] on that is neither reserved for the
    console nor bound, among [fuel] candidates. *)
Fixpoint free_handle (tbl : gmap Z OpenFile) (h : Z) (fuel : nat)
  : option Z :=
  match fuel with
  | O => None
  | S fuel' =>
      if bool_decide (h = ConsoleInput) || bool_decide (h = ConsoleOutput)
         || bool_decide (is_Some (tbl !! h))
      then free_handle tbl (h + 1) fuel'
      else Some h
  end.

(** Modelled from the spec: the descriptor table of a thread ([thread.cc]
    is missing).  "Add(file) -> FileHandle: allocates the smallest unused
    non-reserved handle [...]  Returns an out-of-range sentinel if the
    table is at capacity"; "Remove(handle): releases the resource bound to
    handle [...]; no-op [...] if the handle is not currently bound";
    "RemoveAll(): releases every currently bound non-reserved resource". *)
Definition AddFile (file : OpenFile) : M Z :=
  tbl <- gets current_files;;
  match free_handle tbl 0 NumOpenFiles with
  | Some h =>
      on_current (with_files <[h := file]>);;
      log (EvAddFile file h);;
      ret h
  | None =>
      log (EvAddFile file (-1));;
      ret (-1)
  end.

Definition RemoveFile (fid : Z) : M unit :=
  on_current (with_files (delete fid));;
  log (EvRemoveFile fid).

Definition RemoveAllFiles : M unit :=
  on_current (with_files (fun _ => ∅));;
  log EvRemoveAllFiles.

(** [delete file] *)
Definition delete_file (file : OpenFile) : M unit := log (EvDelete file).

(** Modelled from the spec: [Thread::Finish] ([thread.cc] is missing):
    "records the status in its process control block, raises the
    completion signal for any joiner, and terminates the calling thread
    (control never returns to the trap site)". *)
Definition Finish (status : Z) : M unit :=
  on_current (with_exitStatus status);;
  log (EvFinish status);;
  stop Finished.

(** Modelled from the spec: the process table, "Get(id) ->
    process-or-none" (the table is missing). *)
Definition PTable_Get (pid : Z) : M (option Z) :=
  t <- gets (fun k => pTable k !! pid);;
  log (EvGet pid t);;
  ret t.

(** Modelled from the spec: [Thread::Join] ([thread.cc] is missing):
    "blocks the calling thread until the target's completion signal has
    been raised, then returns the target's exit status".  The receiver is
    a pointer: a call through the null pointer is a fault. *)
Definition Thread_Join (thread : option Z) : M Z :=
  log (EvJoin thread);;
  match thread with
  | None => stop NullPointer
  | Some t =>
      st <- gets (fun k => threads k !! t ≫= exitStatus);;
      match st with
      | Some s => ret s
      | None => stop Blocked
      end
  end.

(** Modelled from the spec: creation of a thread ([thread.cc] is
    missing): "allocates a new thread [...], registers it in the Process
    Table to obtain its ProcessId"; "Register(thread) -> ProcessId:
    assigns a fresh id".  [GetSid] reads that id back. *)
Definition new_Thread (name : string) : M Z :=
  t <- gets (fun k => fresh (dom (threads k)));;
  pid <- gets (fun k => fresh (dom (pTable k)));;
  modify (with_threads <[t := {| th_name := name; space := None;
                                 files := ∅; sid := pid;
                                 exitStatus := None; forked := None |}]>);;
  modify (with_pTable <[pid := t]>);;
  log (EvNewThread name t);;
  ret t.

Definition GetSid (t : Z) : M Z :=
  gets (fun k => default (-1) (sid <$> threads k !! t)).

(** Modelled from the spec: "construct(open-file) -> address space (loads
    an executable image)" ([addrspace.cc] is missing). *)
Definition new_AddressSpace (file : OpenFile) : M AddressSpace :=
  log (EvNewAddressSpace file);;
  ret {| executable := file |}.

(** [t->space = as] *)
Definition set_space (t : Z) (a : AddressSpace) : M unit :=
  modify (with_threads (alter (with_space a) t)).

(** Modelled from the spec: "transfers the argument list into the new
    thread's control context" ([args.cc] is missing).  The saved list is
    named by the user address it was read from. *)
Definition SaveArgs (pargs : Z) : M Z :=
  log (EvSaveArgs pargs);;
  ret pargs.

(** Modelled from the spec: "fork(entry-routine, argument-blob) enqueues
    thread for execution" ([thread.cc] is missing). *)
Definition Fork (t : Z) (entry : Entry) (args : Z) : M unit :=
  modify (with_threads (alter (with_forked entry args) t));;
  log (EvFork t entry args).

(** Modelled from the spec: [interrupt->Halt()], "unconditionally and
    immediately shuts down the entire kernel; [...] does not return". *)
Definition Interrupt_Halt : M unit :=
  log EvHalt;;
  stop Halted.

(** Output: [DEBUG] of [utility.hh] and [printf], a format and its
    integer arguments. *)
Definition DEBUG (flag : ascii) (msg : string) : M unit :=
  log (EvDebug flag msg).

Definition printf (fmt : string) (args : list Z) : M unit :=
  log (EvPrintf fmt args).

(** Modelled from the spec: the macro [ASSERT] ([utility.hh] is missing);
    a failed assertion is how "the kernel reports the unrecognized
    code/trap kind and aborts". *)
Definition ASSERT (condition : bool) : M unit :=
  if condition then ret tt else (log EvAssertFail;; stop Aborted).

(** ** [IncreasePC] *)

Definition IncreasePC : M unit :=
  pc <- ReadRegister PC_REG;;
  WriteRegister PREV_PC_REG pc;;
  pc <- ReadRegister NEXT_PC_REG;;
  WriteRegister PC_REG pc;;
  let pc := int_add pc 4 in
  WriteRegister NEXT_PC_REG pc.

(** ** The loops of the read and write calls

    [for (i = 0; i < size; i++)] with [unsigned i] and [int size]: the
    comparison is made on [unsigned] values.  [len] is the length the
    array [buffer] was declared with.  [fuel] bounds the number of times
    the test is made; the calls give it one more than the number of turns
    the test allows, so that the loop ends on its test. *)

Fixpoint read_loop (fuel : nat) (len : Z) (i : Z) (size : Z) : M Z :=
  match fuel with
  | O => ret i
  | S fuel' =>
      if i <? to_unsigned size then
        c <- GetChar;;
        store len i c;;
        read_loop fuel' len (to_unsigned (i + 1)) size
      else ret i
  end.

Fixpoint write_loop (fuel : nat) (len : Z) (i : Z) (size : Z) : M Z :=
  match fuel with
  | O => ret i
  | S fuel' =>
      if i <? to_unsigned size then
        c <- load len i;;
        PutChar c;;
        write_loop fuel' len (to_unsigned (i + 1)) size
      else ret i
  end.

(** The number of turns the test of [for (i = 0; i < size; i++)]
    allows. *)
Definition turns (size : Z) : nat := Z.to_nat (to_unsigned size).

Arguments turns : simpl never.

(** ** [ExceptionHandler]

    One definition per [case] of the [switch], each with its trailing
    [IncreasePC(); break;] where the source has it. *)

Definition case_SC_Halt : M unit :=
  DEBUG "a" "Shutdown, initiated by user program.\n";;
  Interrupt_Halt.

Definition case_SC_Create : M unit :=
  fname <- ReadRegister 4;;
  name <- ReadStringFromUser fname 256;;
  FileSystem_Create name 0;;
  IncreasePC.

Definition case_SC_Read : M unit :=
  from <- ReadRegister 4;;
  size <- ReadRegister 5;;
  id <- ReadRegister 6;;
  declare_array size;;
  let readLength := 0 in
  readLength <-
    (if id =? ConsoleInput then
       i <- read_loop (S (turns size)) size 0 size;;
       WriteBufferToUser from size;;
       ret (to_int i)
     else ret readLength);;
  WriteRegister 2 readLength;;
  IncreasePC.

Definition case_SC_Write : M unit :=
  from <- ReadRegister 4;;
  size <- ReadRegister 5;;
  id <- ReadRegister 6;;
  let writeLength := 0 in
  declare_array size;;
  writeLength <-
    (if id =? ConsoleOutput then
       ReadBufferFromUser from size;;
       i <- write_loop (S (turns size)) size 0 size;;
       ret (to_int i)
     else ret writeLength);;
  WriteRegister 2 writeLength;;
  IncreasePC.

Definition case_SC_Open : M unit :=
  pname <- ReadRegister 4;;
  name <- ReadStringFromUser pname 256;;
  file <- FileSystem_Open name;;
  let fid := -1 in
  fid <-
    match file with
    | Some file =>
        fid <- AddFile file;;
        (if fid <? 0 then delete_file file else ret tt);;
        ret fid
    | None => ret fid
    end;;
  IncreasePC.

Definition case_SC_Close : M unit :=
  fid <- ReadRegister 4;;
  RemoveFile fid;;
  IncreasePC.

Definition case_SC_Exit : M unit :=
  status <- ReadRegister 4;;
  RemoveAllFiles;;
  Finish status;;
  IncreasePC.

Definition case_SC_Join : M unit :=
  pid <- ReadRegister 4;;
  thread <- PTable_Get pid;;
  Thread_Join thread;;
  WriteRegister 2 0;;
  IncreasePC.

Definition case_SC_Exec : M unit :=
  pname <- ReadRegister 4;;
  pargs <- ReadRegister 5;;
  name <- ReadStringFromUser pname 256;;
  file <- FileSystem_Open name;;
  let sid := -1 in
  sid <-
    match file with
    | Some file =>
        t <- new_Thread name;;
        as_ <- new_AddressSpace file;;
        set_space t as_;;
        sid <- GetSid t;;
        args <- SaveArgs pargs;;
        Fork t InitUserProc args;;
        ret sid
    | None => ret sid
    end;;
  WriteRegister 2 sid;;
  IncreasePC.

Definition case_default (type : Z) : M unit :=
  printf "Unkown syscall %d\n" [type];;
  ASSERT false.

Definition ExceptionHandler (which : Z) : M unit :=
  type <- ReadRegister 2;;
  if which =? SYSCALL_EXCEPTION then
    if type =? SC_Halt then case_SC_Halt
    else if type =? SC_Create then case_SC_Create
    else if type =? SC_Read then case_SC_Read
    else if type =? SC_Write then case_SC_Write
    else if type =? SC_Open then case_SC_Open
    else if type =? SC_Close then case_SC_Close
    else if type =? SC_Exit then case_SC_Exit
    else if type =? SC_Join then case_SC_Join
    else if type =? SC_Exec then case_SC_Exec
    else case_default type
  else
    (printf "Unexpected user mode exception %d %d\n" [which; type];;
     printf "%d\n" [SYSCALL_EXCEPTION];;
     ASSERT false).

End Trap.

(** ** A concrete machine

    The values of the stock distribution's [syscall.h] and [machine.hh], a
    kernel stack with 4096 bytes to spare, and a small kernel state to run
    the handler on. *)

Definition nachos : MachineConsts := {|
  SC_Halt := 0; SC_Exit := 1; SC_Exec := 2; SC_Join := 3; SC_Create := 4;
  SC_Open := 5; SC_Read := 6; SC_Write := 7; SC_Close := 8;
  ConsoleInput := 0; ConsoleOutput := 1;
  SYSCALL_EXCEPTION := 1;
  PC_REG := 34; NEXT_PC_REG := 35; PREV_PC_REG := 36;
  NumOpenFiles := 16;
  StackRoom := 4096
|}.

(** A register file given by the slots that are not zero. *)
Fixpoint regfile (l : list (Z * Z)) : Z -> Z :=
  match l with
  | [] => fun _ => 0
  | (r, v) :: l' => <[r := v]> (regfile l')
  end.

(** User memory holding the NUL-terminated string [s] at [addr]. *)
Definition memory_with (addr : Z) (s : string) : Z -> byte :=
  fun a =>
    if bool_decide (addr <= a) then
      nth (Z.to_nat (a - addr)) (list_byte_of_string s) x00
    else x00.

Definition main_thread : Thread :=
  {| th_name := "main"; space := None; files := ∅; sid := 0;
     exitStatus := None; forked := None |}.

Definition child_thread : Thread :=
  {| th_name := "prog"; space := None; files := ∅; sid := 1;
     exitStatus := None; forked := Some (InitUserProc, 0) |}.

(** Two threads, [main] (pid 0, at address 100) and [prog] (pid 1, at
    address 200), [running] being the one on the processor; a console that
    delivers the letters a, b, c, ..., of which the five from a to e have
    come in; a file system with the one file [prog]; the strings
    [missing.txt] at user address 1000 and [prog] at user address 2000. *)
Definition sample (running : Z) (regs : list (Z * Z)) : Kernel :=
  {| machine := {| registers := regfile regs;
                   mainMemory := fun a =>
                     if bool_decide (a < 2000)
                     then memory_with 1000 "missing.txt" a
                     else memory_with 2000 "prog" a |};
     stack := fun _ => x00;
     fileSystem := {["prog"%string]};
     synchConsole :=
       {| incoming := fun n =>
            default x00 (Byte.of_nat (97 + Nat.modulo n 26));
          arrived := 5%nat; consumed := 0%nat; written := [] |};
     threads := {[ 100 := main_thread; 200 := child_thread ]};
     currentThread := running;
     pTable := {[ 0 := 100; 1 := 200 ]};
     trace := [] |}.

(** The state in which another thread is on the processor, with its own
    registers. *)
Definition switch_to (running : Z) (regs : list (Z * Z)) (k : Kernel)
  : Kernel :=
  {| machine := {| registers := regfile regs;
                   mainMemory := mainMemory (machine k) |};
     stack := stack k; fileSystem := fileSystem k;
     synchConsole := synchConsole k; threads := threads k;
     currentThread := running; pTable := pTable k; trace := trace k |}.

(** The kernel once [prog] (pid 1) has run [Exit(42)]. *)
Definition after_Exit_42 : Kernel :=
  final (@ExceptionHandler nachos 1 (sample 200 [(2, 1); (4, 42)])).

(** ** Vocabulary of the statements *)

(** What a piece of code leaves untouched: everything but the registers
    and the trace. *)
Definition keeps_kernel (k k' : Kernel) : Prop :=
  mainMemory (machine k') = mainMemory (machine k) /\
  stack k' = stack k /\
  fileSystem k' = fileSystem k /\
  synchConsole k' = synchConsole k /\
  threads k' = threads k /\
  currentThread k' = currentThread k /\
  pTable k' = pTable k.

(** The part of the kernel that belongs to the processes and the file
    system. *)
Definition keeps_processes (k k' : Kernel) : Prop :=
  fileSystem k' = fileSystem k /\
  threads k' = threads k /\
  currentThread k' = currentThread k /\
  pTable k' = pTable k.

(** The next [n] characters the console delivers. *)
Definition taken (k : Kernel) (n : nat) : list byte :=
  map (fun j => incoming (synchConsole k) (consumed (synchConsole k) + j))
      (seq 0 n).

(** The number of characters that have come in and have not been
    taken. *)
Definition waiting (k : Kernel) : nat :=
  (arrived (synchConsole k) - consumed (synchConsole k))%nat.

(** The console has the next [n] characters: [n] calls of [GetChar] come
    back without waiting. *)
Definition has_input (k : Kernel) (n : nat) : Prop := (n <= waiting k)%nat.

#[global] Instance has_input_dec k n : Decision (has_input k n) :=
  decide (n <= waiting k)%nat.

(** [buffer] after the stores [buffer[i] = c0], [buffer[i+1] = c1], ... *)
Fixpoint fill (buffer : Z -> byte) (i : Z) (cs : list byte) : Z -> byte :=
  match cs with
  | [] => buffer
  | c :: cs' => fill (<[i := c]> buffer) (i + 1) cs'
  end.

(** The kernel after [n] turns of the read loop from index [i] on. *)
Definition after_read (k : Kernel) (i : Z) (n : nat) : Kernel :=
  with_trace (fun t => t ++ map EvGetChar (taken k n))
    (with_synchConsole (fun con =>
       {| incoming := incoming con; arrived := arrived con;
          consumed := consumed con + n; written := written con |})
       (with_stack (fun buffer => fill buffer i (taken k n)) k)).

(** The [n] cells of the buffer from index [i] on. *)
Definition pending (k : Kernel) (i : Z) (n : nat) : list byte :=
  map (fun j => stack k (i + Z.of_nat j)) (seq 0 n).

(** The kernel after [n] turns of the write loop from index [i] on. *)
Definition after_write (k : Kernel) (i : Z) (n : nat) : Kernel :=
  with_trace (fun t => t ++ map EvPutChar (pending k i n))
    (with_synchConsole (fun con =>
       {| incoming := incoming con; arrived := arrived con;
          consumed := consumed con;
          written := written con ++ pending k i n |}) k).

(** The kernel buffer once [ReadBufferFromUser] has filled it. *)
Definition fetched (k : Kernel) (from size : Z) : Z -> byte :=
  fun i => if bool_decide (0 <= i < size)
           then mainMemory (machine k) (from + i)
           else stack k i.

(** The events that are a write to a register. *)
Definition writes_register (e : Event) : bool :=
  match e with
  | EvWriteRegister _ _ => true
  | _ => false
  end.

(** The register writes of [IncreasePC], from the registers before it. *)
Definition pc_writes `{MachineConsts} (old : Z -> Z) : list Event :=
  [EvWriteRegister PREV_PC_REG (old PC_REG);
   EvWriteRegister PC_REG (old NEXT_PC_REG);
   EvWriteRegister NEXT_PC_REG (int_add (old NEXT_PC_REG) 4)].

(** A call gets as far as its write-back: what is left of it is
    [WriteRegister(2, v); IncreasePC()], no register has been written on
    the way, and [calls] are the calls made so far. *)
Definition reaches_write_back `{MachineConsts} (body : M unit) (k : Kernel)
    (v : Z) (calls : list Event) : Prop :=
  exists k1,
    body k = (WriteRegister 2 v;; IncreasePC) k1 /\
    registers (machine k1) = registers (machine k) /\
    trace k1 = trace k ++ calls /\
    Forall (fun e => writes_register e = false) calls.

(** ** The ways through the handler

    Every trap ends in one of three ways: control leaves the handler, the
    handler advances the program counter and returns, or it writes a
    result to [r2], advances the program counter and returns. *)

Inductive Path :=
| Leaves (why : Stop)
| Advances
| WritesBack.

(** The way of a [Read] or [Write] with the size [size]: the array comes
    first, then the way [then_] of the transfer. *)
Definition array_path `{MachineConsts} (size : Z) (then_ : Path) : Path :=
  if size <? 0 then Leaves Undefined
  else if StackRoom <? size then Leaves Overflow
  else then_.

(** The way a trap takes, read off the [if] and the [switch] of the
    handler and, for [Join], off the process table, for [Read] and
    [Write] off the size and, for [Read] on the console, off the
    characters that have come in. *)
Definition path `{MachineConsts} (which : Z) (k : Kernel) : Path :=
  let type := registers (machine k) 2 in
  let size := registers (machine k) 5 in
  let id := registers (machine k) 6 in
  if which =? SYSCALL_EXCEPTION then
    if type =? SC_Halt then Leaves Halted
    else if type =? SC_Create then Advances
    else if type =? SC_Read then
      array_path size
        (if (id =? ConsoleInput) && (waiting k <? turns size)%nat
         then Leaves Blocked else WritesBack)
    else if type =? SC_Write then array_path size WritesBack
    else if type =? SC_Open then Advances
    else if type =? SC_Close then Advances
    else if type =? SC_Exit then Leaves Finished
    else if type =? SC_Join then
      match pTable k !! registers (machine k) 4 with
      | None => Leaves NullPointer
      | Some t =>
          match threads k !! t ≫= exitStatus with
          | None => Leaves Blocked
          | Some _ => WritesBack
          end
      end
    else if type =? SC_Exec then WritesBack
    else Leaves Aborted
  else Leaves Aborted.

(** A run [r] from [k] goes the way [p]: what is left of it is the common
    tail of that way, reached without a write to a register. *)
Definition follows `{MachineConsts} (r : Result unit) (k : Kernel) (p : Path)
  : Prop :=
  match p with
  | Leaves why =>
      exists k1, r = Stopped why k1 /\ machine k1 = machine k
  | Advances =>
      exists k1,
        r = IncreasePC k1 /\
        registers (machine k1) = registers (machine k)
  | WritesBack =>
      exists v k1,
        r = (WriteRegister 2 v;; IncreasePC) k1 /\
        registers (machine k1) = registers (machine k)
  end.

(** The array of a [Read] or [Write] fits the kernel stack. *)
Definition array_fits `{MachineConsts} (k : Kernel) : Prop :=
  0 <= registers (machine k) 5 <= StackRoom.

#[global] Instance array_fits_dec `{MachineConsts} k
  : Decision (array_fits k) :=
  decide (0 <= registers (machine k) 5 <= StackRoom).

(** When the handler leaves for the reason [why]. *)
Definition leaves_when `{MachineConsts} (which : Z) (k : Kernel) (why : Stop)
  : Prop :=
  let type := registers (machine k) 2 in
  let pid := registers (machine k) 4 in
  let size := registers (machine k) 5 in
  let id := registers (machine k) 6 in
  match why with
  | Aborted => which <> SYSCALL_EXCEPTION \/ type ∉ syscall_codes
  | Halted => which = SYSCALL_EXCEPTION /\ type = SC_Halt
  | Finished => which = SYSCALL_EXCEPTION /\ type = SC_Exit
  | NullPointer =>
      which = SYSCALL_EXCEPTION /\ type = SC_Join /\ pTable k !! pid = None
  | Blocked =>
      which = SYSCALL_EXCEPTION /\
      ((type = SC_Join /\
        exists t, pTable k !! pid = Some t /\
                  threads k !! t ≫= exitStatus = None) \/
       (type = SC_Read /\ array_fits k /\ id = ConsoleInput /\
        ~ has_input k (turns size)))
  | Overflow =>
      which = SYSCALL_EXCEPTION /\ (type = SC_Read \/ type = SC_Write) /\
      0 <= size /\ StackRoom < size
  | Undefined =>
      which = SYSCALL_EXCEPTION /\ (type = SC_Read \/ type = SC_Write) /\
      size < 0
  end.

(** The program counters have moved on by one instruction. *)
Definition pc_advanced `{MachineConsts} (old new : Z -> Z) : Prop :=
  new PREV_PC_REG = old PC_REG /\
  new PC_REG = old NEXT_PC_REG /\
  new NEXT_PC_REG = int_add (old NEXT_PC_REG) 4.

(** When the handler returns to the trap site. *)
Definition returns_when `{MachineConsts} (which : Z) (k : Kernel) : Prop :=
  let type := registers (machine k) 2 in
  let pid := registers (machine k) 4 in
  let size := registers (machine k) 5 in
  let id := registers (machine k) 6 in
  which = SYSCALL_EXCEPTION /\
  (type ∈ [SC_Create; SC_Open; SC_Close; SC_Exec] \/
   (type = SC_Read /\ array_fits k /\
    (id = ConsoleInput -> has_input k (turns size))) \/
   (type = SC_Write /\ array_fits k) \/
   (type = SC_Join /\
    exists t status, pTable k !! pid = Some t /\
                     threads k !! t ≫= exitStatus = Some status)).

(** The thread object [Exec] leaves behind for the program [name] with
    the arguments at [pargs], registered under [pid]. *)
Definition spawned (name : string) (pid pargs : Z) : Thread :=
  {| th_name := name;
     space := Some {| executable := {| of_name := name |} |};
     files := ∅; sid := pid; exitStatus := None;
     forked := Some (InitUserProc, pargs) |}.

(** The trap is a system call with one of the given request codes. *)
Definition is_call `{MachineConsts} (which : Z) (k : Kernel)
    (codes : list Z) : Prop :=
  which = SYSCALL_EXCEPTION /\ registers (machine k) 2 ∈ codes.

(** The parts of the kernel [k'] has in common with [k]: the running
    thread always, and each of the file system, the process table, the
    thread objects, the console with the kernel buffer, and user memory
    unless its flag is set. *)
Definition same_but (k k' : Kernel) (fs pt th con mem : bool) : Prop :=
  currentThread k' = currentThread k /\
  (fs = false -> fileSystem k' = fileSystem k) /\
  (pt = false -> pTable k' = pTable k) /\
  (th = false -> threads k' = threads k) /\
  (con = false -> synchConsole k' = synchConsole k /\ stack k' = stack k) /\
  (mem = false -> mainMemory (machine k') = mainMemory (machine k)).

(** A handle a descriptor table can bind: inside the table and not one
    of the two console handles. *)
Definition valid_handle `{MachineConsts} (h : Z) : Prop :=
  0 <= h < Z.of_nat NumOpenFiles /\
  h <> ConsoleInput /\ h <> ConsoleOutput.

(** Every descriptor table binds valid handles only. *)
Definition tables_ok `{MachineConsts} (k : Kernel) : Prop :=
  forall t th h,
    threads k !! t = Some th -> is_Some (files th !! h) -> valid_handle h.

(** Every process id of the process table names a thread object that
    exists and carries that id. *)
Definition pTable_ok (k : Kernel) : Prop :=
  forall pid t,
    pTable k !! pid = Some t ->
    exists th, threads k !! t = Some th /\ sid th = pid.

(** What a trap does to the thread objects and the process table: it
    leaves both alone; or it changes the object of the running thread,
    by an update [f] that keeps the process id, binds valid handles only
    and sets an exit status only in [Exit]; or it adds one thread object
    and one process id, neither in use before. *)
Definition thread_effect `{MachineConsts} (which : Z) (k k' : Kernel)
  : Prop :=
  (threads k' = threads k /\ pTable k' = pTable k) \/
  (exists f,
     threads k' = alter f (currentThread k) (threads k) /\
     pTable k' = pTable k /\
     (forall th, sid (f th) = sid th) /\
     (forall th h, is_Some (files (f th) !! h) ->
                   is_Some (files th !! h) \/ valid_handle h) /\
     (forall th, exitStatus (f th) = exitStatus th \/
                 (is_call which k [SC_Exit] /\
                  exitStatus (f th) = Some (registers (machine k) 4)))) \/
  (exists t pid name pargs,
     threads k !! t = None /\
     pTable k !! pid = None /\
     threads k' = <[t := spawned name pid pargs]> (threads k) /\
     pTable k' = <[pid := t]> (pTable k)).

(** The same machine with descriptor tables of two slots, which the two
    console handles take. *)
Definition nachos_small : MachineConsts := {|
  SC_Halt := 0; SC_Exit := 1; SC_Exec := 2; SC_Join := 3; SC_Create := 4;
  SC_Open := 5; SC_Read := 6; SC_Write := 7; SC_Close := 8;
  ConsoleInput := 0; ConsoleOutput := 1;
  SYSCALL_EXCEPTION := 1;
  PC_REG := 34; NEXT_PC_REG := 35; PREV_PC_REG := 36;
  NumOpenFiles := 2;
  StackRoom := 4096
|}.

(** ** Facts about machine integers *)

Lemma to_unsigned_range n : 0 <= to_unsigned n < 2 ^ 32.
Proof. unfold to_unsigned. apply Z.mod_pos_bound. lia. Qed.

Lemma to_unsigned_small n : 0 <= n < 2 ^ 32 -> to_unsigned n = n.
Proof. intros Hn. unfold to_unsigned. now apply Z.mod_small. Qed.

Lemma to_unsigned_nonneg n : is_int n -> 0 <= n -> to_unsigned n = n.
Proof.
  unfold is_int, INT_MAX. intros Hn Hpos. apply to_unsigned_small. lia.
Qed.

Lemma to_unsigned_negative n :
  is_int n -> n < 0 -> to_unsigned n = n + 2 ^ 32.
Proof.
  unfold is_int, INT_MIN, to_unsigned. intros Hn Hneg.
  symmetry. apply Z.mod_unique with (q := -1); lia.
Qed.

Lemma to_int_exact n : is_int n -> to_int n = n.
Proof.
  unfold is_int, INT_MIN, INT_MAX, to_int. intros Hn.
  rewrite Z.mod_small; lia.
Qed.

Lemma to_int_to_unsigned n : is_int n -> to_int (to_unsigned n) = n.
Proof.
  intros Hn. destruct (Z_lt_le_dec n 0) as [Hneg | Hpos].
  - rewrite to_unsigned_negative by assumption.
    unfold is_int, INT_MIN, to_int in *.
    replace (n + 2 ^ 32 + 2 ^ 31) with (n + 2 ^ 31 + 1 * 2 ^ 32) by ring.
    rewrite Z.mod_add by lia. rewrite Z.mod_small; lia.
  - rewrite to_unsigned_nonneg by assumption. now apply to_int_exact.
Qed.

Lemma int_add_exact a b : is_int (a + b) -> int_add a b = a + b.
Proof. apply to_int_exact. Qed.

Lemma turns_unsigned size : Z.of_nat (turns size) = to_unsigned size.
Proof.
  unfold turns. apply Z2Nat.id. apply to_unsigned_range.
Qed.

(** ** Running the monad *)

Lemma bind_Done {A B} (m : M A) (f : A -> M B) k a k' :
  m k = Done a k' -> bind m f k = f a k'.
Proof. unfold bind. now intros ->. Qed.

Lemma bind_Stopped {A B} (m : M A) (f : A -> M B) k w k' :
  m k = Stopped w k' -> bind m f k = Stopped w k'.
Proof. unfold bind. now intros ->. Qed.

Lemma keeps_kernel_refl k : keeps_kernel k k.
Proof. repeat split. Qed.

Section Properties.
Context `{MachineConsts}.

(** *** The dispatch *)

(** Pairwise inequalities out of a [NoDup] of a literal list. *)
Ltac distinct Hd :=
  repeat (apply list.NoDup_cons in Hd; destruct Hd as [?Hn Hd]);
  clear Hd;
  repeat match goal with
    | Hn : _ ∉ _ :: _ |- _ => apply not_elem_of_cons in Hn; destruct Hn
    | Hn : _ ∉ [] |- _ => clear Hn
    end.

(** Walks down the [switch] to the case [Ht] names. *)
Ltac pick_case Hd Ht :=
  unfold ExceptionHandler, bind, ReadRegister, gets;
  rewrite Z.eqb_refl, Ht;
  unfold codes_distinct, syscall_codes in Hd; distinct Hd;
  repeat (match goal with
          | |- context [?a =? ?b] => destruct (Z.eqb_spec a b)
          end; try congruence).

Lemma handler_SC_Read k :
  codes_distinct -> registers (machine k) 2 = SC_Read ->
  ExceptionHandler SYSCALL_EXCEPTION k = case_SC_Read k.
Proof. intros Hd Ht. pick_case Hd Ht. Qed.

Lemma handler_SC_Write k :
  codes_distinct -> registers (machine k) 2 = SC_Write ->
  ExceptionHandler SYSCALL_EXCEPTION k = case_SC_Write k.
Proof. intros Hd Ht. pick_case Hd Ht. Qed.

Lemma handler_SC_Open k :
  codes_distinct -> registers (machine k) 2 = SC_Open ->
  ExceptionHandler SYSCALL_EXCEPTION k = case_SC_Open k.
Proof. intros Hd Ht. pick_case Hd Ht. Qed.

Lemma handler_SC_Exit k :
  codes_distinct -> registers (machine k) 2 = SC_Exit ->
  ExceptionHandler SYSCALL_EXCEPTION k = case_SC_Exit k.
Proof. intros Hd Ht. pick_case Hd Ht. Qed.

Lemma handler_SC_Join k :
  codes_distinct -> registers (machine k) 2 = SC_Join ->
  ExceptionHandler SYSCALL_EXCEPTION k = case_SC_Join k.
Proof. intros Hd Ht. pick_case Hd Ht. Qed.

Lemma handler_SC_Exec k :
  codes_distinct -> registers (machine k) 2 = SC_Exec ->
  ExceptionHandler SYSCALL_EXCEPTION k = case_SC_Exec k.
Proof. intros Hd Ht. pick_case Hd Ht. Qed.

Lemma handler_default k :
  registers (machine k) 2 ∉ syscall_codes ->
  ExceptionHandler SYSCALL_EXCEPTION k
  = case_default (registers (machine k) 2) k.
Proof.
  intros Hn. unfold ExceptionHandler, bind, ReadRegister, gets.
  rewrite Z.eqb_refl. unfold syscall_codes in Hn.
  repeat (apply not_elem_of_cons in Hn; destruct Hn as [? Hn]).
  repeat (match goal with
          | |- context [?a =? ?b] => destruct (Z.eqb_spec a b)
          end; try congruence).
Qed.

(** *** [IncreasePC] *)

Lemma IncreasePC_Done k : IncreasePC k = Done tt (final (IncreasePC k)).
Proof. reflexivity. Qed.

Lemma IncreasePC_keeps k : keeps_kernel k (final (IncreasePC k)).
Proof. repeat split. Qed.

Lemma IncreasePC_trace k :
  trace (final (IncreasePC k))
  = trace k ++
    [EvWriteRegister PREV_PC_REG (registers (machine k) PC_REG);
     EvWriteRegister PC_REG
       (registers (machine (final (WriteRegister PREV_PC_REG
          (registers (machine k) PC_REG) k))) NEXT_PC_REG);
     EvWriteRegister NEXT_PC_REG
       (int_add (registers (machine (final (WriteRegister PREV_PC_REG
          (registers (machine k) PC_REG) k))) NEXT_PC_REG) 4)].
Proof. simpl. now rewrite <- !app_assoc. Qed.

Lemma IncreasePC_registers k :
  pc_regs_distinct ->
  let old := registers (machine k) in
  let new := registers (machine (final (IncreasePC k))) in
  new PREV_PC_REG = old PC_REG /\
  new PC_REG = old NEXT_PC_REG /\
  new NEXT_PC_REG = int_add (old NEXT_PC_REG) 4 /\
  (forall r, r <> PREV_PC_REG -> r <> PC_REG -> r <> NEXT_PC_REG ->
             new r = old r).
Proof.
  intros Hd. unfold pc_regs_distinct in Hd. distinct Hd. simpl.
  repeat split; intros;
    repeat first [ rewrite fn_lookup_insert
                 | rewrite fn_lookup_insert_ne by congruence ];
    reflexivity.
Qed.

(** C7: [IncreasePC] moves the old current PC into the previous-PC
    register and the old next PC into the current-PC register, stores the
    old next PC plus 4 in the next-PC register, and changes no other
    register.  The sum is the [int] sum of [pc += 4]; it is the
    mathematical one whenever that is an [int]. *)
Theorem IncreasePC_advances k :
  pc_regs_distinct ->
  let pc := registers (machine k) PC_REG in
  let next := registers (machine k) NEXT_PC_REG in
  exists k',
    IncreasePC k = Done tt k' /\
    registers (machine k') PREV_PC_REG = pc /\
    registers (machine k') PC_REG = next /\
    registers (machine k') NEXT_PC_REG = int_add next 4 /\
    (is_int (next + 4) -> registers (machine k') NEXT_PC_REG = next + 4) /\
    (forall r, r <> PREV_PC_REG -> r <> PC_REG -> r <> NEXT_PC_REG ->
               registers (machine k') r = registers (machine k) r) /\
    keeps_kernel k k'.
Proof.
  intros Hd pc next.
  destruct (IncreasePC_registers k Hd) as (Hprev & Hpc & Hnext & Hrest).
  exists (final (IncreasePC k)).
  split; [apply IncreasePC_Done |].
  repeat split; try assumption.
  intros Hfit. fold next in Hnext. rewrite Hnext. now apply int_add_exact.
Qed.

(** *** Traps that are not system calls, and unknown request codes *)

(** C4: a trap that is not a system call, and a system call whose code is
    none of the nine, prints its diagnostic (the code, or the kind of trap
    and the code) and then fails the assertion: the kernel aborts, and the
    registers, the result register and the program counters among them,
    are as they were. *)
Theorem unknown_trap_is_fatal which k :
  which <> SYSCALL_EXCEPTION \/ registers (machine k) 2 ∉ syscall_codes ->
  let type := registers (machine k) 2 in
  let diagnostic :=
    if which =? SYSCALL_EXCEPTION
    then [EvPrintf "Unkown syscall %d\n" [type]]
    else [EvPrintf "Unexpected user mode exception %d %d\n" [which; type];
          EvPrintf "%d\n" [SYSCALL_EXCEPTION]] in
  exists k',
    ExceptionHandler which k = Stopped Aborted k' /\
    trace k' = trace k ++ diagnostic ++ [EvAssertFail] /\
    machine k' = machine k /\
    keeps_kernel k k'.
Proof.
  intros Hunknown type diagnostic. subst diagnostic.
  destruct (Z.eqb_spec which SYSCALL_EXCEPTION) as [-> | Hother].
  - destruct Hunknown as [Hne | Hcode]; [congruence |].
    rewrite (handler_default k Hcode). fold type.
    eexists. split; [reflexivity |].
    split; [simpl; now rewrite <- !app_assoc |].
    split; [reflexivity | repeat split].
  - unfold ExceptionHandler, bind, ReadRegister, gets.
    apply Z.eqb_neq in Hother. rewrite Hother.
    eexists. split; [reflexivity |].
    split; [simpl; now rewrite <- !app_assoc |].
    split; [reflexivity | repeat split].
Qed.

(** *** The loops *)

Lemma taken_S k n :
  taken k (S n)
  = incoming (synchConsole k) (consumed (synchConsole k))
    :: map (fun j => incoming (synchConsole k)
                       (S (consumed (synchConsole k)) + j))
           (seq 0 n).
Proof.
  unfold taken. simpl. rewrite Nat.add_0_r. f_equal.
  rewrite <- seq_shift, map_map. apply map_ext. intros j.
  now rewrite Nat.add_succ_r.
Qed.

Lemma taken_length k n : length (taken k n) = n.
Proof. unfold taken. now rewrite length_map, length_seq. Qed.

Lemma pending_S k i n :
  pending k i (S n)
  = stack k i :: map (fun j => stack k (i + 1 + Z.of_nat j)) (seq 0 n).
Proof.
  unfold pending. simpl. rewrite Z.add_0_r. f_equal.
  rewrite <- seq_shift, map_map. apply map_ext. intros j.
  f_equal. lia.
Qed.

Lemma pending_length k i n : length (pending k i n) = n.
Proof. unfold pending. now rewrite length_map, length_seq. Qed.

Lemma after_read_0 k i : after_read k i 0 = k.
Proof.
  destruct k as [m st fs [inc arr con wr] th cur pt tr].
  unfold after_read, with_trace, with_synchConsole, with_stack, taken.
  cbn. now rewrite app_nil_r, Nat.add_0_r.
Qed.

Lemma after_write_0 k i : after_write k i 0 = k.
Proof.
  destruct k as [m st fs [inc arr con wr] th cur pt tr].
  unfold after_write, with_trace, with_synchConsole. simpl.
  now rewrite !app_nil_r.
Qed.

(** One turn of the read loop, a character being there and the index
    inside the array. *)
Lemma read_turn fuel len i size k :
  0 <= i < len -> i < to_unsigned size -> has_input k 1 ->
  read_loop (S fuel) len i size k
  = read_loop fuel len (i + 1) size (after_read k i 1).
Proof.
  intros Hi Hlt Hin. pose proof (to_unsigned_range size) as Hsize.
  cbn [read_loop].
  destruct (Z.ltb_spec i (to_unsigned size)) as [_ | Hge]; [| lia].
  unfold GetChar, store, log. unfold bind at 1 2, gets at 1.
  cbn beta iota.
  unfold has_input, waiting in Hin.
  destruct (Nat.ltb_spec (consumed (synchConsole k))
              (arrived (synchConsole k))) as [_ | Hnone]; [| lia].
  unfold bind, modify, ret. cbn beta iota.
  rewrite bool_decide_eq_true_2 by lia.
  rewrite to_unsigned_small by lia.
  f_equal.
  unfold after_read. rewrite !taken_S.
  unfold with_trace, with_synchConsole, with_stack.
  cbn [machine stack fileSystem synchConsole threads currentThread
       pTable trace incoming arrived consumed written fill map seq].
  f_equal. f_equal. lia.
Qed.

Lemma after_read_S k i n :
  after_read (after_read k i 1) (i + 1) n = after_read k i (S n).
Proof.
  assert (forall j : nat,
            incoming (synchConsole k) (consumed (synchConsole k) + 1 + j)
            = incoming (synchConsole k) (S (consumed (synchConsole k)) + j))
    as Hshift by (intros j; f_equal; lia).
  unfold after_read. rewrite !taken_S.
  unfold with_trace, with_synchConsole, with_stack, taken.
  cbn [machine stack fileSystem synchConsole threads currentThread
       pTable trace incoming arrived consumed written fill map seq].
  rewrite (map_ext _ _ Hshift).
  f_equal.
  - f_equal. lia.
  - now rewrite <- app_assoc.
Qed.

(** The read loop to its end, the console having the characters: [n]
    turns are left, [n] characters are taken from the console and stored
    from [buffer[i]] on, and the test that fails leaves [i] at
    [(unsigned) size]. *)
Lemma read_loop_run n : forall fuel len i size k,
  0 <= i -> i + Z.of_nat n = to_unsigned size -> to_unsigned size <= len ->
  has_input k n -> (n < fuel)%nat ->
  read_loop fuel len i size k = Done (to_unsigned size) (after_read k i n).
Proof.
  induction n as [| n IH]; intros fuel len i size k Hi Hn Hlen Hin Hfuel;
    (destruct fuel as [| fuel]; [lia |]).
  - cbn [read_loop].
    destruct (Z.ltb_spec i (to_unsigned size)) as [Hlt | _]; [lia |].
    rewrite after_read_0. unfold ret. f_equal. lia.
  - unfold has_input, waiting in Hin.
    rewrite read_turn by (unfold has_input, waiting; lia).
    rewrite (IH fuel len (i + 1) size) by
      (unfold has_input, waiting, after_read; cbn; lia).
    now rewrite after_read_S.
Qed.

(** The read loop with fewer characters than it has turns left: it takes
    the [a] characters that are there and waits for the next. *)
Lemma read_loop_waits a : forall fuel len i size k,
  0 <= i -> i + Z.of_nat a < to_unsigned size -> to_unsigned size <= len ->
  waiting k = a -> (a < fuel)%nat ->
  read_loop fuel len i size k = Stopped Blocked (after_read k i a).
Proof.
  induction a as [| a IH]; intros fuel len i size k Hi Hn Hlen Ha Hfuel;
    (destruct fuel as [| fuel]; [lia |]); unfold waiting in Ha.
  - cbn [read_loop].
    destruct (Z.ltb_spec i (to_unsigned size)) as [_ | Hge]; [| lia].
    unfold GetChar. unfold bind at 1 2, gets at 1. cbn beta iota.
    destruct (Nat.ltb_spec (consumed (synchConsole k))
                (arrived (synchConsole k))) as [Hsome | _]; [lia |].
    now rewrite after_read_0.
  - rewrite read_turn by (unfold has_input, waiting; lia).
    rewrite (IH fuel len (i + 1) size) by
      (unfold waiting, after_read; cbn; lia).
    now rewrite after_read_S.
Qed.


(** The write loop to its end: the [n] cells from [buffer[i]] on go to
    the console, and the test that fails leaves [i] at
    [(unsigned) size]. *)
Lemma write_turn fuel len i size k :
  0 <= i < len -> i < to_unsigned size ->
  write_loop (S fuel) len i size k
  = write_loop fuel len (i + 1) size (after_write k i 1).
Proof.
  intros Hi Hlt. pose proof (to_unsigned_range size) as Hsize.
  cbn [write_loop].
  destruct (Z.ltb_spec i (to_unsigned size)) as [_ | Hge]; [| lia].
  unfold load, PutChar, log. rewrite bool_decide_eq_true_2 by lia.
  unfold bind, gets, modify, ret. cbn beta iota.
  rewrite to_unsigned_small by lia.
  f_equal.
  destruct k as [m st fs [inc arr con wr] th cur pt tr].
  unfold after_write, with_trace, with_synchConsole, pending. simpl.
  now rewrite Z.add_0_r.
Qed.

Lemma after_write_S k i n :
  after_write (after_write k i 1) (i + 1) n = after_write k i (S n).
Proof.
  unfold after_write. rewrite !pending_S.
  destruct k as [m st fs [inc arr con wr] th cur pt tr].
  unfold with_trace, with_synchConsole, pending. simpl.
  now rewrite <- !app_assoc.
Qed.

Lemma write_loop_run n : forall fuel len i size k,
  0 <= i -> i + Z.of_nat n = to_unsigned size -> to_unsigned size <= len ->
  (n < fuel)%nat ->
  write_loop fuel len i size k
  = Done (to_unsigned size) (after_write k i n).
Proof.
  induction n as [| n IH]; intros fuel len i size k Hi Hn Hlen Hfuel;
    (destruct fuel as [| fuel]; [lia |]).
  - cbn [write_loop].
    destruct (Z.ltb_spec i (to_unsigned size)) as [Hlt | _]; [lia |].
    rewrite after_write_0. unfold ret. f_equal. lia.
  - rewrite write_turn by lia.
    rewrite (IH fuel len (i + 1) size) by lia.
    now rewrite after_write_S.
Qed.


Lemma to_unsigned_le n : 0 <= n -> to_unsigned n <= n.
Proof. intros Hn. unfold to_unsigned. apply Z.mod_le; lia. Qed.

(** The loops of the two calls, the array having [size] cells and [size]
    not being negative: they run to their bound and no index leaves the
    array. *)
Lemma read_loop_whole size k :
  0 <= size -> has_input k (turns size) ->
  read_loop (S (turns size)) size 0 size k
  = Done (to_unsigned size) (after_read k 0 (turns size)).
Proof.
  intros Hsize Hin.
  apply read_loop_run;
    try rewrite turns_unsigned; auto using to_unsigned_le with lia.
Qed.

Lemma read_loop_short size k :
  0 <= size -> ~ has_input k (turns size) ->
  read_loop (S (turns size)) size 0 size k
  = Stopped Blocked (after_read k 0 (waiting k)).
Proof.
  intros Hsize Hin. unfold has_input in Hin.
  apply read_loop_waits; auto using to_unsigned_le with lia.
  rewrite <- turns_unsigned. lia.
Qed.

Lemma write_loop_whole size k :
  0 <= size ->
  write_loop (S (turns size)) size 0 size k
  = Done (to_unsigned size) (after_write k 0 (turns size)).
Proof.
  intros Hsize.
  apply write_loop_run;
    try rewrite turns_unsigned; auto using to_unsigned_le with lia.
Qed.

Lemma fill_lookup cs : forall buffer i j,
  fill buffer i cs j
  = if bool_decide (i <= j < i + Z.of_nat (length cs))
    then nth (Z.to_nat (j - i)) cs x00
    else buffer j.
Proof.
  induction cs as [| c cs IH]; intros buffer i j.
  - simpl. case_bool_decide; [lia | reflexivity].
  - cbn [fill length]. rewrite IH.
    repeat case_bool_decide; try lia.
    + replace (Z.to_nat (j - i)) with (S (Z.to_nat (j - (i + 1)))) by lia.
      reflexivity.
    + assert (j = i) as -> by lia.
      rewrite fn_lookup_insert. now rewrite Z.sub_diag.
    + rewrite fn_lookup_insert_ne by lia. reflexivity.
Qed.

(** *** Write-back and resume *)

(** Unfolds a case of the handler down to the state it computes. *)
Ltac run :=
  unfold case_SC_Read, case_SC_Write, case_SC_Open, case_SC_Exit,
    case_SC_Join, case_SC_Exec, case_default;
  unfold declare_array, ReadStringFromUser, ReadBufferFromUser,
    WriteBufferToUser,
    FileSystem_Open, RemoveAllFiles, Finish, PTable_Get, Thread_Join,
    new_Thread, new_AddressSpace, set_space, GetSid, SaveArgs, Fork,
    printf, ASSERT, on_current, ReadRegister;
  unfold log; unfold bind, gets, modify, ret, stop; cbn beta iota.

Lemma resume k :
  pc_regs_apart ->
  exists k',
    IncreasePC k = Done tt k' /\
    (forall r, r <> PREV_PC_REG -> r <> PC_REG -> r <> NEXT_PC_REG ->
               registers (machine k') r = registers (machine k) r) /\
    trace k' = trace k ++ pc_writes (registers (machine k)) /\
    keeps_kernel k k'.
Proof.
  intros Hd. unfold pc_regs_apart in Hd. distinct Hd.
  exists (final (IncreasePC k)).
  split; [apply IncreasePC_Done |].
  split; [| split; [| apply IncreasePC_keeps]].
  - intros r Hprev Hpc Hnext. simpl.
    now rewrite !fn_lookup_insert_ne by congruence.
  - rewrite IncreasePC_trace. unfold pc_writes. simpl.
    now rewrite !fn_lookup_insert_ne by congruence.
Qed.

Lemma write_back_then_resume v k :
  pc_regs_apart ->
  exists k',
    (WriteRegister 2 v;; IncreasePC) k = Done tt k' /\
    registers (machine k') 2 = v /\
    (forall r, r <> 2 -> r <> PREV_PC_REG -> r <> PC_REG ->
               r <> NEXT_PC_REG ->
               registers (machine k') r = registers (machine k) r) /\
    trace k'
    = trace k ++ EvWriteRegister 2 v :: pc_writes (registers (machine k)) /\
    keeps_kernel k k'.
Proof.
  intros Hd.
  destruct (resume (final (WriteRegister 2 v k)) Hd)
    as (k' & Hrun & Hregs & Htrace & Hkeeps).
  unfold pc_regs_apart in Hd. distinct Hd.
  exists k'. split; [exact Hrun |].
  split; [| split; [| split; [| exact Hkeeps]]].
  - rewrite Hregs by congruence. simpl. apply fn_lookup_insert.
  - intros r Hr2 Hprev Hpc Hnext. rewrite Hregs by assumption.
    simpl. now rewrite fn_lookup_insert_ne by congruence.
  - rewrite Htrace. unfold pc_writes. simpl.
    rewrite !fn_lookup_insert_ne by congruence.
    now rewrite <- app_assoc.
Qed.

(** *** [Open] and [Exec] of a name the file system does not have *)

Lemma case_SC_Open_missing k :
  let pname := registers (machine k) 4 in
  let name := user_string k pname 256 in
  name ∉ fileSystem k ->
  case_SC_Open k
  = IncreasePC (with_trace (fun t =>
      (t ++ [EvReadStringFromUser pname name]) ++ [EvOpen name None]) k).
Proof.
  intros pname name Hmissing. run.
  change (user_string _ (registers (machine k) 4) 256) with name.
  cbn [fileSystem with_trace].
  rewrite !(bool_decide_eq_false_2 _ Hmissing). reflexivity.
Qed.

Lemma case_SC_Exec_missing k :
  let pname := registers (machine k) 4 in
  let name := user_string k pname 256 in
  name ∉ fileSystem k ->
  case_SC_Exec k
  = (WriteRegister 2 (-1);; IncreasePC) (with_trace (fun t =>
      (t ++ [EvReadStringFromUser pname name]) ++ [EvOpen name None]) k).
Proof.
  intros pname name Hmissing. run.
  change (user_string _ (registers (machine k) 4) 256) with name.
  cbn [fileSystem with_trace].
  rewrite !(bool_decide_eq_false_2 _ Hmissing). reflexivity.
Qed.

(** C5: [Exec] of a path the file system does not have puts the invalid
    process id -1 in the result register; no thread and no address space
    is created and the process table gets no entry: the calls made are the
    string copy, the failed open, the write-back and the PC advance, and
    only registers change. *)
Theorem Exec_missing_program k :
  codes_distinct -> pc_regs_apart ->
  registers (machine k) 2 = SC_Exec ->
  let pname := registers (machine k) 4 in
  let name := user_string k pname 256 in
  name ∉ fileSystem k ->
  exists k',
    ExceptionHandler SYSCALL_EXCEPTION k = Done tt k' /\
    registers (machine k') 2 = -1 /\
    threads k' = threads k /\
    pTable k' = pTable k /\
    keeps_kernel k k' /\
    trace k'
    = trace k
      ++ [EvReadStringFromUser pname name; EvOpen name None;
          EvWriteRegister 2 (-1)]
      ++ pc_writes (registers (machine k)).
Proof.
  intros Hcodes Hregs Htype pname name Hmissing.
  rewrite (handler_SC_Exec k Hcodes Htype).
  rewrite (case_SC_Exec_missing k Hmissing).
  fold pname. fold name.
  destruct (write_back_then_resume (-1)
              (with_trace (fun t =>
                 (t ++ [EvReadStringFromUser pname name])
                 ++ [EvOpen name None]) k) Hregs)
    as (k' & Hrun & Hres & _ & Htrace & Hkeeps).
  exists k'. split; [exact Hrun |].
  split; [exact Hres |].
  destruct Hkeeps as (Hmem & Hstack & Hfs & Hcon & Hth & Hcur & Hpt).
  repeat split; try assumption.
  rewrite Htrace. simpl. now rewrite <- !app_assoc.
Qed.

(** C1, as the code has it: [Open] of a name the file system does not
    have binds no handle, but the handle -1 it computes is never written
    to a register: the result register still holds the request code. *)
Theorem Open_missing_file k :
  codes_distinct -> pc_regs_apart ->
  registers (machine k) 2 = SC_Open ->
  let pname := registers (machine k) 4 in
  let name := user_string k pname 256 in
  name ∉ fileSystem k ->
  exists k',
    ExceptionHandler SYSCALL_EXCEPTION k = Done tt k' /\
    registers (machine k') 2 = SC_Open /\
    current_files k' = current_files k /\
    keeps_kernel k k' /\
    trace k'
    = trace k
      ++ [EvReadStringFromUser pname name; EvOpen name None]
      ++ pc_writes (registers (machine k)).
Proof.
  intros Hcodes Hregs Htype pname name Hmissing.
  rewrite (handler_SC_Open k Hcodes Htype).
  rewrite (case_SC_Open_missing k Hmissing).
  fold pname. fold name.
  destruct (resume
              (with_trace (fun t =>
                 (t ++ [EvReadStringFromUser pname name])
                 ++ [EvOpen name None]) k) Hregs)
    as (k' & Hrun & Hsame & Htrace & Hkeeps).
  exists k'. split; [exact Hrun |].
  unfold pc_regs_apart in Hregs. distinct Hregs.
  split; [rewrite Hsame by congruence; exact Htype |].
  destruct Hkeeps as (Hmem & Hstack & Hfs & Hcon & Hth & Hcur & Hpt).
  split; [unfold current_files; now rewrite Hth, Hcur |].
  split; [repeat split; assumption |].
  rewrite Htrace. simpl. now rewrite <- !app_assoc.
Qed.

(** *** [Exit] *)

(** C8: [Exit] first releases the files of the calling thread
    ([RemoveAllFiles]), then hands the status to [Finish], which records
    it and ends the thread: control does not come back, so the [IncreasePC]
    that follows in the source is not run and no register is written. *)
Theorem Exit_never_resumes k :
  codes_distinct ->
  registers (machine k) 2 = SC_Exit ->
  let status := registers (machine k) 4 in
  exists k',
    ExceptionHandler SYSCALL_EXCEPTION k = Stopped Finished k' /\
    trace k' = trace k ++ [EvRemoveAllFiles; EvFinish status] /\
    machine k' = machine k /\
    current_files k' = ∅ /\
    threads k' !! currentThread k
    = (fun t => with_exitStatus status (with_files (fun _ => ∅) t))
        <$> threads k !! currentThread k /\
    (forall t, t <> currentThread k -> threads k' !! t = threads k !! t) /\
    currentThread k' = currentThread k /\
    pTable k' = pTable k /\
    fileSystem k' = fileSystem k /\
    synchConsole k' = synchConsole k.
Proof.
  intros Hcodes Htype status.
  rewrite (handler_SC_Exit k Hcodes Htype).
  eexists. split; [run; reflexivity |].
  split; [simpl; now rewrite <- !app_assoc |].
  split; [reflexivity |].
  assert (forall m : gmap Z Thread,
    alter (with_exitStatus status) (currentThread k)
      (alter (with_files (fun _ => ∅)) (currentThread k) m)
      !! currentThread k
    = (fun t => with_exitStatus status (with_files (fun _ => ∅) t))
        <$> m !! currentThread k) as Hcur.
  { intros m. rewrite !lookup_alter_eq.
    now destruct (m !! currentThread k). }
  split; [| split; [| split]].
  - unfold current_files. simpl. rewrite Hcur.
    now destruct (threads k !! currentThread k).
  - simpl. apply Hcur.
  - intros t Hother. simpl. now rewrite !lookup_alter_ne by congruence.
  - repeat split.
Qed.

(** *** [Join] *)

Lemma case_SC_Join_absent k :
  let pid := registers (machine k) 4 in
  pTable k !! pid = None ->
  case_SC_Join k
  = Stopped NullPointer
      (with_trace (fun t => (t ++ [EvGet pid None]) ++ [EvJoin None]) k).
Proof.
  intros pid Habsent. run. cbn [pTable with_trace]. fold pid.
  rewrite Habsent. reflexivity.
Qed.

Lemma case_SC_Join_running k t :
  let pid := registers (machine k) 4 in
  pTable k !! pid = Some t ->
  threads k !! t ≫= exitStatus = None ->
  case_SC_Join k
  = Stopped Blocked
      (with_trace (fun t' => (t' ++ [EvGet pid (Some t)])
                             ++ [EvJoin (Some t)]) k).
Proof.
  intros pid Hpid Hrunning. run. cbn [pTable threads with_trace]. fold pid.
  rewrite Hpid. cbn [threads with_trace]. rewrite Hrunning. reflexivity.
Qed.

Lemma case_SC_Join_finished k t status :
  let pid := registers (machine k) 4 in
  pTable k !! pid = Some t ->
  threads k !! t ≫= exitStatus = Some status ->
  case_SC_Join k
  = (WriteRegister 2 0;; IncreasePC)
      (with_trace (fun t' => (t' ++ [EvGet pid (Some t)])
                             ++ [EvJoin (Some t)]) k).
Proof.
  intros pid Hpid Hfinished. run. cbn [pTable threads with_trace]. fold pid.
  rewrite Hpid. cbn [threads with_trace]. rewrite Hfinished. reflexivity.
Qed.

(** C9: [Join] makes no check of the lookup.  For a process id the
    process table does not have, [Get] yields the null pointer and [Join]
    is called through it: the handler faults there; it reports nothing to
    the caller, writes no register and does not advance the PC. *)
Theorem Join_absent_pid_faults k :
  codes_distinct ->
  registers (machine k) 2 = SC_Join ->
  let pid := registers (machine k) 4 in
  pTable k !! pid = None ->
  exists k',
    ExceptionHandler SYSCALL_EXCEPTION k = Stopped NullPointer k' /\
    trace k' = trace k ++ [EvGet pid None; EvJoin None] /\
    machine k' = machine k /\
    keeps_kernel k k'.
Proof.
  intros Hcodes Htype pid Habsent.
  rewrite (handler_SC_Join k Hcodes Htype).
  rewrite (case_SC_Join_absent k Habsent).
  eexists. split; [reflexivity |].
  split; [simpl; now rewrite <- !app_assoc |].
  split; [reflexivity | repeat split].
Qed.

(** C2, as the code has it: [Join] on a registered process does not come
    back while that process has not run [Finish] (which only [Exit]
    calls); once it has, with whatever status, the value written to the
    result register is the constant 0, not the status. *)
Theorem Join_writes_zero k t :
  codes_distinct -> pc_regs_apart ->
  registers (machine k) 2 = SC_Join ->
  let pid := registers (machine k) 4 in
  pTable k !! pid = Some t ->
  (threads k !! t ≫= exitStatus = None ->
   exists k',
     ExceptionHandler SYSCALL_EXCEPTION k = Stopped Blocked k' /\
     machine k' = machine k /\
     trace k' = trace k ++ [EvGet pid (Some t); EvJoin (Some t)]) /\
  (forall status,
   threads k !! t ≫= exitStatus = Some status ->
   exists k',
     ExceptionHandler SYSCALL_EXCEPTION k = Done tt k' /\
     registers (machine k') 2 = 0 /\
     keeps_kernel k k' /\
     trace k'
     = trace k
       ++ [EvGet pid (Some t); EvJoin (Some t); EvWriteRegister 2 0]
       ++ pc_writes (registers (machine k))).
Proof.
  intros Hcodes Hregs Htype pid Hpid.
  rewrite (handler_SC_Join k Hcodes Htype). split.
  - intros Hrunning. rewrite (case_SC_Join_running k t Hpid Hrunning).
    eexists. split; [reflexivity |]. split; [reflexivity |].
    simpl. now rewrite <- !app_assoc.
  - intros status Hfinished.
    rewrite (case_SC_Join_finished k t status Hpid Hfinished). fold pid.
    destruct (write_back_then_resume 0
                (with_trace (fun t' => (t' ++ [EvGet pid (Some t)])
                                       ++ [EvJoin (Some t)]) k) Hregs)
      as (k' & Hrun & Hres & _ & Htrace & Hkeeps).
    exists k'. split; [exact Hrun |]. split; [exact Hres |].
    split; [exact Hkeeps |].
    rewrite Htrace. simpl. now rewrite <- !app_assoc.
Qed.

(** *** [Read] and [Write] *)

(** The array is declared before the handle is looked at: with a size
    that is negative, or larger than what the stack has left, neither
    call gets any further. *)
Lemma case_SC_Read_negative k :
  registers (machine k) 5 < 0 -> case_SC_Read k = Stopped Undefined k.
Proof.
  intros Hneg. run.
  destruct (Z.ltb_spec (registers (machine k) 5) 0); [reflexivity | lia].
Qed.

Lemma case_SC_Write_negative k :
  registers (machine k) 5 < 0 -> case_SC_Write k = Stopped Undefined k.
Proof.
  intros Hneg. run.
  destruct (Z.ltb_spec (registers (machine k) 5) 0); [reflexivity | lia].
Qed.

Lemma case_SC_Read_oversize k :
  0 <= registers (machine k) 5 -> StackRoom < registers (machine k) 5 ->
  case_SC_Read k = Stopped Overflow k.
Proof.
  intros Hpos Hbig. run.
  destruct (Z.ltb_spec (registers (machine k) 5) 0); [lia |].
  destruct (Z.ltb_spec StackRoom (registers (machine k) 5));
    [reflexivity | lia].
Qed.

Lemma case_SC_Write_oversize k :
  0 <= registers (machine k) 5 -> StackRoom < registers (machine k) 5 ->
  case_SC_Write k = Stopped Overflow k.
Proof.
  intros Hpos Hbig. run.
  destruct (Z.ltb_spec (registers (machine k) 5) 0); [lia |].
  destruct (Z.ltb_spec StackRoom (registers (machine k) 5));
    [reflexivity | lia].
Qed.

(** Gets a call past the declaration of an array that fits. *)
Ltac declared Hfits :=
  unfold array_fits in Hfits; run;
  match goal with
  | |- context [?size <? 0] =>
      destruct (Z.ltb_spec size 0); [lia |];
      destruct (Z.ltb_spec StackRoom size); [lia |]
  end.

Lemma case_SC_Read_other k :
  array_fits k -> registers (machine k) 6 <> ConsoleInput ->
  case_SC_Read k = (WriteRegister 2 0;; IncreasePC) k.
Proof.
  intros Hfits Hid. declared Hfits.
  apply Z.eqb_neq in Hid. rewrite Hid. reflexivity.
Qed.

Lemma case_SC_Write_other k :
  array_fits k -> registers (machine k) 6 <> ConsoleOutput ->
  case_SC_Write k = (WriteRegister 2 0;; IncreasePC) k.
Proof.
  intros Hfits Hid. declared Hfits.
  apply Z.eqb_neq in Hid. rewrite Hid. reflexivity.
Qed.

Lemma case_SC_Read_console k :
  let from := registers (machine k) 4 in
  let size := registers (machine k) 5 in
  array_fits k -> registers (machine k) 6 = ConsoleInput ->
  has_input k (turns size) ->
  case_SC_Read k
  = (WriteRegister 2 (to_int (to_unsigned size));; IncreasePC)
      (final (WriteBufferToUser from size (after_read k 0 (turns size)))).
Proof.
  intros from size Hfits Hid Hin. declared Hfits.
  rewrite Hid, Z.eqb_refl.
  fold size. rewrite read_loop_whole by assumption. reflexivity.
Qed.

(** [Read] on the console with fewer characters than it was asked for:
    it takes those that are there and waits; user memory has none of
    them yet. *)
Lemma case_SC_Read_waits k :
  let size := registers (machine k) 5 in
  array_fits k -> registers (machine k) 6 = ConsoleInput ->
  ~ has_input k (turns size) ->
  case_SC_Read k = Stopped Blocked (after_read k 0 (waiting k)).
Proof.
  intros size Hfits Hid Hin. declared Hfits.
  rewrite Hid, Z.eqb_refl.
  fold size. rewrite read_loop_short by assumption. reflexivity.
Qed.

Lemma case_SC_Write_console k :
  let from := registers (machine k) 4 in
  let size := registers (machine k) 5 in
  array_fits k -> registers (machine k) 6 = ConsoleOutput ->
  case_SC_Write k
  = (WriteRegister 2 (to_int (to_unsigned size));; IncreasePC)
      (after_write (final (ReadBufferFromUser from size k)) 0 (turns size)).
Proof.
  intros from size Hfits Hid. declared Hfits.
  rewrite Hid, Z.eqb_refl.
  fold size. rewrite write_loop_whole by assumption. reflexivity.
Qed.

(** [Read] on the console handle, the array fitting and the console
    having the characters. *)
Lemma Read_console_run k :
  pc_regs_apart ->
  let from := registers (machine k) 4 in
  let size := registers (machine k) 5 in
  let result := to_int (to_unsigned size) in
  array_fits k -> registers (machine k) 6 = ConsoleInput ->
  has_input k (turns size) ->
  exists k',
    case_SC_Read k = Done tt k' /\
    registers (machine k') 2 = result /\
    (forall r, r <> 2 -> r <> PREV_PC_REG -> r <> PC_REG ->
               r <> NEXT_PC_REG ->
               registers (machine k') r = registers (machine k) r) /\
    synchConsole k'
    = {| incoming := incoming (synchConsole k);
         arrived := arrived (synchConsole k);
         consumed := consumed (synchConsole k) + turns size;
         written := written (synchConsole k) |} /\
    stack k' = fill (stack k) 0 (taken k (turns size)) /\
    (forall a, mainMemory (machine k') a
               = if bool_decide (from <= a < from + size)
                 then stack k' (a - from)
                 else mainMemory (machine k) a) /\
    keeps_processes k k' /\
    trace k'
    = trace k
      ++ map EvGetChar (taken k (turns size))
      ++ [EvWriteBufferToUser from size; EvWriteRegister 2 result]
      ++ pc_writes (registers (machine k)).
Proof.
  intros Hregs from size result Hfits Hid Hin.
  rewrite (case_SC_Read_console k Hfits Hid Hin). fold from size result.
  destruct (write_back_then_resume result
              (final (WriteBufferToUser from size
                        (after_read k 0 (turns size)))) Hregs)
    as (k' & Hrun & Hres & Hsame & Htrace & Hkeeps).
  destruct Hkeeps as (Hmem & Hstack & Hfs & Hcon & Hth & Hcur & Hpt).
  exists k'. split; [exact Hrun |]. split; [exact Hres |].
  split; [exact Hsame |]. split; [rewrite Hcon; reflexivity |].
  split; [rewrite Hstack; reflexivity |].
  split; [intros a; rewrite Hmem, Hstack; reflexivity |].
  split; [repeat split; assumption |].
  rewrite Htrace. simpl. now rewrite <- !app_assoc.
Qed.

(** [Write] on the console handle, the array fitting. *)
Lemma Write_console_run k :
  pc_regs_apart ->
  let from := registers (machine k) 4 in
  let size := registers (machine k) 5 in
  let result := to_int (to_unsigned size) in
  let sent := map (fun j => fetched k from size (Z.of_nat j))
                  (seq 0 (turns size)) in
  array_fits k -> registers (machine k) 6 = ConsoleOutput ->
  exists k',
    case_SC_Write k = Done tt k' /\
    registers (machine k') 2 = result /\
    (forall r, r <> 2 -> r <> PREV_PC_REG -> r <> PC_REG ->
               r <> NEXT_PC_REG ->
               registers (machine k') r = registers (machine k) r) /\
    synchConsole k'
    = {| incoming := incoming (synchConsole k);
         arrived := arrived (synchConsole k);
         consumed := consumed (synchConsole k);
         written := written (synchConsole k) ++ sent |} /\
    stack k' = fetched k from size /\
    mainMemory (machine k') = mainMemory (machine k) /\
    keeps_processes k k' /\
    trace k'
    = trace k
      ++ [EvReadBufferFromUser from size]
      ++ map EvPutChar sent
      ++ [EvWriteRegister 2 result]
      ++ pc_writes (registers (machine k)).
Proof.
  intros Hregs from size result sent Hfits Hid.
  rewrite (case_SC_Write_console k Hfits Hid). fold from size result.
  destruct (write_back_then_resume result
              (after_write (final (ReadBufferFromUser from size k)) 0
                 (turns size)) Hregs)
    as (k' & Hrun & Hres & Hsame & Htrace & Hkeeps).
  destruct Hkeeps as (Hmem & Hstack & Hfs & Hcon & Hth & Hcur & Hpt).
  exists k'. split; [exact Hrun |]. split; [exact Hres |].
  split; [exact Hsame |]. split; [rewrite Hcon; reflexivity |].
  split; [rewrite Hstack; reflexivity |].
  split; [rewrite Hmem; reflexivity |].
  split; [repeat split; assumption |].
  rewrite Htrace. simpl. rewrite <- !app_assoc. reflexivity.
Qed.

Lemma taken_nth k n j :
  (j < n)%nat ->
  nth j (taken k n) x00
  = incoming (synchConsole k) (consumed (synchConsole k) + j).
Proof.
  intros Hj. unfold taken.
  rewrite nth_indep
    with (d' := incoming (synchConsole k) (consumed (synchConsole k) + 0))
    by (now rewrite length_map, length_seq).
  rewrite (map_nth (fun j => incoming (synchConsole k)
                               (consumed (synchConsole k) + j))).
  now rewrite seq_nth.
Qed.

Lemma turns_nonneg size :
  is_int size -> 0 <= size -> turns size = Z.to_nat size.
Proof.
  intros Hint Hpos. unfold turns. now rewrite to_unsigned_nonneg.
Qed.

(** With a size that is not negative, what the write loop sends is what
    the user buffer held. *)
Lemma fetched_user_bytes k from size n :
  Z.of_nat n <= size ->
  map (fun j => fetched k from size (Z.of_nat j)) (seq 0 n)
  = map (fun j => mainMemory (machine k) (from + Z.of_nat j)) (seq 0 n).
Proof.
  intros Hn. apply map_ext_in. intros j Hj. apply in_seq in Hj.
  unfold fetched. rewrite bool_decide_eq_true_2 by lia. reflexivity.
Qed.


(** *** Where the result goes *)

Lemma case_SC_Exec_reaches k :
  exists v calls, reaches_write_back case_SC_Exec k v calls.
Proof.
  destruct (decide (user_string k (registers (machine k) 4) 256
                    ∈ fileSystem k)) as [Hfound | Hmissing].
  - do 3 eexists. split.
    + run. cbn [fileSystem with_trace].
      rewrite !(bool_decide_eq_true_2 _ Hfound). reflexivity.
    + split; [reflexivity |]. simpl. rewrite <- !app_assoc.
      split; [reflexivity |]. repeat constructor.
  - do 3 eexists. split; [apply (case_SC_Exec_missing k Hmissing) |].
    split; [reflexivity |]. simpl. rewrite <- !app_assoc.
    split; [reflexivity |]. repeat constructor.
Qed.

(** [Read] gets to its write-back when its array fits and, on the
    console, the characters are there; [Write] when its array fits. *)
Lemma case_SC_Read_reaches k :
  array_fits k ->
  (registers (machine k) 6 = ConsoleInput ->
   has_input k (turns (registers (machine k) 5))) ->
  exists v calls, reaches_write_back case_SC_Read k v calls.
Proof.
  intros Hfits Hin.
  destruct (decide (registers (machine k) 6 = ConsoleInput))
    as [Hid | Hid].
  - do 3 eexists. split; [apply (case_SC_Read_console k Hfits Hid (Hin Hid)) |].
    split; [reflexivity |]. simpl.
    split; [now rewrite <- app_assoc |].
    apply Forall_app. split; [| repeat constructor].
    apply Forall_forall. intros e He.
    apply in_map_iff in He. now destruct He as (c & <- & _).
  - exists 0, [], k. split; [apply (case_SC_Read_other k Hfits Hid) |].
    split; [reflexivity |]. split; [now rewrite app_nil_r | constructor].
Qed.

Lemma case_SC_Write_reaches k :
  array_fits k ->
  exists v calls, reaches_write_back case_SC_Write k v calls.
Proof.
  intros Hfits.
  destruct (decide (registers (machine k) 6 = ConsoleOutput))
    as [Hid | Hid].
  - do 3 eexists. split; [apply (case_SC_Write_console k Hfits Hid) |].
    split; [reflexivity |]. simpl.
    split; [now rewrite <- app_assoc |].
    apply Forall_app. split; [repeat constructor |].
    apply Forall_forall. intros e He.
    apply in_map_iff in He. now destruct He as (c & <- & _).
  - exists 0, [], k. split; [apply (case_SC_Write_other k Hfits Hid) |].
    split; [reflexivity |]. split; [now rewrite app_nil_r | constructor].
Qed.

(** Otherwise they stop, at the declaration or waiting for a character,
    and no register has been written. *)
Lemma case_SC_Read_stops k :
  ~ (array_fits k /\
     (registers (machine k) 6 = ConsoleInput ->
      has_input k (turns (registers (machine k) 5)))) ->
  exists why k',
    case_SC_Read k = Stopped why k' /\ machine k' = machine k.
Proof.
  intros Hnot.
  destruct (Z_lt_le_dec (registers (machine k) 5) 0) as [Hneg | Hpos].
  { exists Undefined, k. now rewrite (case_SC_Read_negative k Hneg). }
  destruct (Z_lt_le_dec StackRoom (registers (machine k) 5))
    as [Hbig | Hroom].
  { exists Overflow, k. now rewrite (case_SC_Read_oversize k Hpos Hbig). }
  assert (array_fits k) as Hfits by (split; assumption).
  destruct (decide (registers (machine k) 6 = ConsoleInput))
    as [Hid | Hid]; [| tauto].
  destruct (decide (has_input k (turns (registers (machine k) 5))))
    as [Hin | Hin]; [tauto |].
  exists Blocked, (after_read k 0 (waiting k)).
  now rewrite (case_SC_Read_waits k Hfits Hid Hin).
Qed.

Lemma case_SC_Write_stops k :
  ~ array_fits k ->
  exists why k',
    case_SC_Write k = Stopped why k' /\ machine k' = machine k.
Proof.
  intros Hnot.
  destruct (Z_lt_le_dec (registers (machine k) 5) 0) as [Hneg | Hpos].
  { exists Undefined, k. now rewrite (case_SC_Write_negative k Hneg). }
  destruct (Z_lt_le_dec StackRoom (registers (machine k) 5))
    as [Hbig | Hroom].
  { exists Overflow, k. now rewrite (case_SC_Write_oversize k Hpos Hbig). }
  destruct Hnot. split; assumption.
Qed.

Lemma write_back_lands_in_r2 (body : M unit) k v calls :
  pc_regs_apart ->
  reaches_write_back body k v calls ->
  exists k',
    body k = Done tt k' /\
    trace k'
    = trace k ++ calls
      ++ EvWriteRegister 2 v :: pc_writes (registers (machine k)) /\
    Forall (fun e => writes_register e = false) calls /\
    registers (machine k') 2 = v /\
    registers (machine k') 4 = registers (machine k) 4 /\
    (forall r, r <> 2 -> r <> PREV_PC_REG -> r <> PC_REG ->
               r <> NEXT_PC_REG ->
               registers (machine k') r = registers (machine k) r).
Proof.
  intros Hregs (k1 & Hbody & Hsame & Hcalls & Hquiet).
  destruct (write_back_then_resume v k1 Hregs)
    as (k' & Hrun & Hres & Hframe & Htrace & _).
  rewrite Hsame in Hframe, Htrace.
  exists k'. split; [now rewrite Hbody |].
  split; [rewrite Htrace, Hcalls; now rewrite <- app_assoc |].
  split; [exact Hquiet |]. split; [exact Hres |].
  split; [| exact Hframe].
  unfold pc_regs_apart in Hregs. distinct Hregs.
  apply Hframe; congruence.
Qed.

(** C3, amended: whenever [Read], [Write], [Join] or [Exec] returns to
    the caller, it has written its result word to [r2], the register the
    request code came in, and to no other register: on the way to the
    write-back no register is written, after it only the three program
    counters are, and the first argument register [r4] keeps the first
    argument.  A call that does not return has written no register at
    all. *)
Theorem result_goes_to_r2 k :
  codes_distinct -> pc_regs_apart ->
  registers (machine k) 2 ∈ [SC_Read; SC_Write; SC_Join; SC_Exec] ->
  match ExceptionHandler SYSCALL_EXCEPTION k with
  | Done _ k' =>
      exists v calls,
        trace k'
        = trace k ++ calls
          ++ EvWriteRegister 2 v :: pc_writes (registers (machine k)) /\
        Forall (fun e => writes_register e = false) calls /\
        registers (machine k') 2 = v /\
        registers (machine k') 4 = registers (machine k) 4 /\
        (forall r, r <> 2 -> r <> PREV_PC_REG -> r <> PC_REG ->
                   r <> NEXT_PC_REG ->
                   registers (machine k') r = registers (machine k) r)
  | Stopped _ k' => machine k' = machine k
  end.
Proof.
  intros Hcodes Hregs Htype.
  assert (forall body v calls,
            ExceptionHandler SYSCALL_EXCEPTION k = body k ->
            reaches_write_back body k v calls ->
            match ExceptionHandler SYSCALL_EXCEPTION k with
            | Done _ k' =>
                exists v calls,
                  trace k'
                  = trace k ++ calls
                    ++ EvWriteRegister 2 v
                       :: pc_writes (registers (machine k)) /\
                  Forall (fun e => writes_register e = false) calls /\
                  registers (machine k') 2 = v /\
                  registers (machine k') 4 = registers (machine k) 4 /\
                  (forall r, r <> 2 -> r <> PREV_PC_REG -> r <> PC_REG ->
                             r <> NEXT_PC_REG ->
                             registers (machine k') r
                             = registers (machine k) r)
            | Stopped _ k' => machine k' = machine k
            end) as Hlands.
  { intros body v calls Hhandler Hreaches.
    destruct (write_back_lands_in_r2 body k v calls Hregs Hreaches)
      as (k' & Hrun & Hrest).
    rewrite Hhandler, Hrun. now exists v, calls. }
  rewrite !elem_of_cons in Htype.
  destruct Htype as [Hread | [Hwrite | [Hjoin | [Hexec | Hnone]]]].
  - destruct (decide (array_fits k /\
                      (registers (machine k) 6 = ConsoleInput ->
                       has_input k (turns (registers (machine k) 5)))))
      as [[Hfits Hin] | Hnot].
    + destruct (case_SC_Read_reaches k Hfits Hin)
        as (v & calls & Hreaches).
      now apply (Hlands _ v calls (handler_SC_Read k Hcodes Hread)).
    + destruct (case_SC_Read_stops k Hnot) as (why & k' & Hstop & Hsame).
      now rewrite (handler_SC_Read k Hcodes Hread), Hstop.
  - destruct (decide (array_fits k)) as [Hfits | Hnot].
    + destruct (case_SC_Write_reaches k Hfits) as (v & calls & Hreaches).
      now apply (Hlands _ v calls (handler_SC_Write k Hcodes Hwrite)).
    + destruct (case_SC_Write_stops k Hnot) as (why & k' & Hstop & Hsame).
      now rewrite (handler_SC_Write k Hcodes Hwrite), Hstop.
  - destruct (pTable k !! registers (machine k) 4) as [t |] eqn:Hpid.
    + destruct (threads k !! t ≫= exitStatus) as [status |] eqn:Hstatus.
      * apply (Hlands _ 0 [EvGet (registers (machine k) 4) (Some t);
                           EvJoin (Some t)]
                 (handler_SC_Join k Hcodes Hjoin)).
        eexists.
        split; [apply (case_SC_Join_finished k t status Hpid Hstatus) |].
        split; [reflexivity |]. simpl.
        split; [now rewrite <- app_assoc | repeat constructor].
      * rewrite (handler_SC_Join k Hcodes Hjoin).
        now rewrite (case_SC_Join_running k t Hpid Hstatus).
    + rewrite (handler_SC_Join k Hcodes Hjoin).
      now rewrite (case_SC_Join_absent k Hpid).
  - destruct (case_SC_Exec_reaches k) as (v & calls & Hreaches).
    now apply (Hlands _ v calls (handler_SC_Exec k Hcodes Hexec)).
  - now apply elem_of_nil in Hnone.
Qed.

(** *** The size of a transfer *)


(** *** The ways through the handler *)

Lemma handler_SC_Halt k :
  codes_distinct -> registers (machine k) 2 = SC_Halt ->
  ExceptionHandler SYSCALL_EXCEPTION k = case_SC_Halt k.
Proof. intros Hd Ht. pick_case Hd Ht. Qed.

Lemma handler_SC_Create k :
  codes_distinct -> registers (machine k) 2 = SC_Create ->
  ExceptionHandler SYSCALL_EXCEPTION k = case_SC_Create k.
Proof. intros Hd Ht. pick_case Hd Ht. Qed.

Lemma handler_SC_Close k :
  codes_distinct -> registers (machine k) 2 = SC_Close ->
  ExceptionHandler SYSCALL_EXCEPTION k = case_SC_Close k.
Proof. intros Hd Ht. pick_case Hd Ht. Qed.

Lemma case_SC_Open_advances k : follows (case_SC_Open k) k Advances.
Proof.
  unfold follows, case_SC_Open.
  destruct (decide (user_string k (registers (machine k) 4) 256
                    ∈ fileSystem k)) as [Hfound | Hmissing].
  - unfold AddFile, delete_file. run. cbn [fileSystem with_trace].
    rewrite !(bool_decide_eq_true_2 _ Hfound).
    destruct (free_handle _ 0 NumOpenFiles) as [h |]; cbn beta iota.
    + destruct (h <? 0); eexists; split; reflexivity.
    + eexists; split; reflexivity.
  - eexists. split; [apply (case_SC_Open_missing k Hmissing) | reflexivity].
Qed.

Lemma case_SC_Read_follows k :
  follows (case_SC_Read k) k
    (array_path (registers (machine k) 5)
       (if (registers (machine k) 6 =? ConsoleInput)
           && (waiting k <? turns (registers (machine k) 5))%nat
        then Leaves Blocked else WritesBack)).
Proof.
  unfold array_path.
  destruct (Z.ltb_spec (registers (machine k) 5) 0) as [Hneg | Hpos].
  { exists k. now rewrite (case_SC_Read_negative k Hneg). }
  destruct (Z.ltb_spec StackRoom (registers (machine k) 5))
    as [Hbig | Hroom].
  { exists k. now rewrite (case_SC_Read_oversize k Hpos Hbig). }
  assert (array_fits k) as Hfits by (split; assumption).
  destruct (Z.eqb_spec (registers (machine k) 6) ConsoleInput)
    as [Hid | Hid]; cbn [andb].
  - destruct (Nat.ltb_spec (waiting k) (turns (registers (machine k) 5)))
      as [Hshort | Hin].
    + exists (after_read k 0 (waiting k)).
      rewrite (case_SC_Read_waits k Hfits Hid); [now split |].
      unfold has_input. lia.
    + destruct (case_SC_Read_reaches k Hfits (fun _ => Hin))
        as (v & calls & k1 & Hrun & Hsame & _).
      now exists v, k1.
  - destruct (case_SC_Read_reaches k Hfits)
      as (v & calls & k1 & Hrun & Hsame & _); [tauto |].
    now exists v, k1.
Qed.

Lemma case_SC_Write_follows k :
  follows (case_SC_Write k) k
    (array_path (registers (machine k) 5) WritesBack).
Proof.
  unfold array_path.
  destruct (Z.ltb_spec (registers (machine k) 5) 0) as [Hneg | Hpos].
  { exists k. now rewrite (case_SC_Write_negative k Hneg). }
  destruct (Z.ltb_spec StackRoom (registers (machine k) 5))
    as [Hbig | Hroom].
  { exists k. now rewrite (case_SC_Write_oversize k Hpos Hbig). }
  destruct (case_SC_Write_reaches k (conj Hpos Hroom))
    as (v & calls & k1 & Hrun & Hsame & _).
  now exists v, k1.
Qed.

Lemma handler_follows_path which k :
  follows (ExceptionHandler which k) k (path which k).
Proof.
  unfold ExceptionHandler, path, bind at 1, ReadRegister at 1, gets at 1.
  cbn beta iota.
  destruct (which =? SYSCALL_EXCEPTION);
    [| eexists; split; reflexivity].
  repeat match goal with
         | |- context [registers (machine k) 2 =? ?c] =>
             destruct (registers (machine k) 2 =? c)
         end.
  - eexists; split; reflexivity.
  - eexists; split; reflexivity.
  - apply case_SC_Read_follows.
  - apply case_SC_Write_follows.
  - apply case_SC_Open_advances.
  - eexists; split; reflexivity.
  - eexists; split; reflexivity.
  - destruct (pTable k !! registers (machine k) 4) as [t |] eqn:Hpid.
    + destruct (threads k !! t ≫= exitStatus) as [status |] eqn:Hstatus.
      * exists 0. eexists.
        split; [apply (case_SC_Join_finished k t status Hpid Hstatus) |].
        reflexivity.
      * eexists.
        split; [apply (case_SC_Join_running k t Hpid Hstatus) |].
        reflexivity.
    + eexists. split; [apply (case_SC_Join_absent k Hpid) | reflexivity].
  - destruct (case_SC_Exec_reaches k) as (v & calls & k1 & Hrun & Hsame & _).
    now exists v, k1.
  - eexists; split; reflexivity.
Qed.

(** The way of each request code, the case labels being distinct. *)
Ltac pick_path Hd Ht :=
  unfold path; rewrite Z.eqb_refl, Ht;
  unfold codes_distinct, syscall_codes in Hd; distinct Hd;
  repeat (match goal with
          | |- context [?a =? ?b] => destruct (Z.eqb_spec a b)
          end; try congruence).

Lemma path_SC_Halt k :
  codes_distinct -> registers (machine k) 2 = SC_Halt ->
  path SYSCALL_EXCEPTION k = Leaves Halted.
Proof. intros Hd Ht. pick_path Hd Ht. Qed.

Lemma path_SC_Create k :
  codes_distinct -> registers (machine k) 2 = SC_Create ->
  path SYSCALL_EXCEPTION k = Advances.
Proof. intros Hd Ht. pick_path Hd Ht. Qed.

Lemma path_SC_Read k :
  codes_distinct -> registers (machine k) 2 = SC_Read ->
  path SYSCALL_EXCEPTION k
  = array_path (registers (machine k) 5)
      (if (registers (machine k) 6 =? ConsoleInput)
          && (waiting k <? turns (registers (machine k) 5))%nat
       then Leaves Blocked else WritesBack).
Proof.
  intros Hd Ht. unfold path. rewrite Z.eqb_refl, Ht.
  unfold codes_distinct, syscall_codes in Hd. distinct Hd.
  destruct (Z.eqb_spec SC_Read SC_Halt); [congruence |].
  destruct (Z.eqb_spec SC_Read SC_Create); [congruence |].
  now rewrite Z.eqb_refl.
Qed.

Lemma path_SC_Write k :
  codes_distinct -> registers (machine k) 2 = SC_Write ->
  path SYSCALL_EXCEPTION k
  = array_path (registers (machine k) 5) WritesBack.
Proof.
  intros Hd Ht. unfold path. rewrite Z.eqb_refl, Ht.
  unfold codes_distinct, syscall_codes in Hd. distinct Hd.
  destruct (Z.eqb_spec SC_Write SC_Halt); [congruence |].
  destruct (Z.eqb_spec SC_Write SC_Create); [congruence |].
  destruct (Z.eqb_spec SC_Write SC_Read); [congruence |].
  now rewrite Z.eqb_refl.
Qed.

(** The ways of [Read] and [Write], by the size and the console. *)
Lemma array_path_cases k (then_ : Path) :
  let size := registers (machine k) 5 in
  (size < 0 /\ array_path size then_ = Leaves Undefined) \/
  (0 <= size /\ StackRoom < size /\
   array_path size then_ = Leaves Overflow) \/
  (array_fits k /\ array_path size then_ = then_).
Proof.
  intros size. unfold array_path, array_fits. fold size.
  destruct (Z.ltb_spec size 0); [now left |].
  destruct (Z.ltb_spec StackRoom size); [right; now left |].
  right; right. repeat split; assumption.
Qed.

Lemma Read_path k :
  codes_distinct -> registers (machine k) 2 = SC_Read ->
  let size := registers (machine k) 5 in
  let id := registers (machine k) 6 in
  (size < 0 /\ path SYSCALL_EXCEPTION k = Leaves Undefined) \/
  (0 <= size /\ StackRoom < size /\
   path SYSCALL_EXCEPTION k = Leaves Overflow) \/
  (array_fits k /\ id = ConsoleInput /\ ~ has_input k (turns size) /\
   path SYSCALL_EXCEPTION k = Leaves Blocked) \/
  (array_fits k /\ (id = ConsoleInput -> has_input k (turns size)) /\
   path SYSCALL_EXCEPTION k = WritesBack).
Proof.
  intros Hd Ht size id. rewrite (path_SC_Read k Hd Ht). fold size id.
  destruct (array_path_cases k
              (if (id =? ConsoleInput) && (waiting k <? turns size)%nat
               then Leaves Blocked else WritesBack))
    as [Hneg | [Hbig | [Hfits Hp]]];
    [now left | right; now left |].
  fold size in Hp. rewrite Hp. right; right.
  unfold has_input.
  destruct (Z.eqb_spec id ConsoleInput) as [Hid | Hid]; cbn [andb].
  - destruct (Nat.ltb_spec (waiting k) (turns size)).
    + left. split; [exact Hfits |]. split; [exact Hid |].
      split; [lia | reflexivity].
    + right. split; [exact Hfits |]. now split.
  - right. split; [exact Hfits |]. split; [tauto | reflexivity].
Qed.

Lemma Write_path k :
  codes_distinct -> registers (machine k) 2 = SC_Write ->
  let size := registers (machine k) 5 in
  (size < 0 /\ path SYSCALL_EXCEPTION k = Leaves Undefined) \/
  (0 <= size /\ StackRoom < size /\
   path SYSCALL_EXCEPTION k = Leaves Overflow) \/
  (array_fits k /\ path SYSCALL_EXCEPTION k = WritesBack).
Proof.
  intros Hd Ht size. rewrite (path_SC_Write k Hd Ht). fold size.
  apply array_path_cases.
Qed.

Lemma path_SC_Open k :
  codes_distinct -> registers (machine k) 2 = SC_Open ->
  path SYSCALL_EXCEPTION k = Advances.
Proof. intros Hd Ht. pick_path Hd Ht. Qed.

Lemma path_SC_Close k :
  codes_distinct -> registers (machine k) 2 = SC_Close ->
  path SYSCALL_EXCEPTION k = Advances.
Proof. intros Hd Ht. pick_path Hd Ht. Qed.

Lemma path_SC_Exit k :
  codes_distinct -> registers (machine k) 2 = SC_Exit ->
  path SYSCALL_EXCEPTION k = Leaves Finished.
Proof. intros Hd Ht. pick_path Hd Ht. Qed.

Lemma path_SC_Join k :
  codes_distinct -> registers (machine k) 2 = SC_Join ->
  path SYSCALL_EXCEPTION k
  = match pTable k !! registers (machine k) 4 with
    | None => Leaves NullPointer
    | Some t =>
        match threads k !! t ≫= exitStatus with
        | None => Leaves Blocked
        | Some _ => WritesBack
        end
    end.
Proof. intros Hd Ht. pick_path Hd Ht. Qed.

Lemma path_SC_Exec k :
  codes_distinct -> registers (machine k) 2 = SC_Exec ->
  path SYSCALL_EXCEPTION k = WritesBack.
Proof. intros Hd Ht. pick_path Hd Ht. Qed.

Lemma path_unknown which k :
  which <> SYSCALL_EXCEPTION \/ registers (machine k) 2 ∉ syscall_codes ->
  path which k = Leaves Aborted.
Proof.
  intros Hunknown. unfold path.
  destruct (Z.eqb_spec which SYSCALL_EXCEPTION) as [Hsys | _];
    [| reflexivity].
  destruct Hunknown as [Hne | Hn]; [contradiction |].
  unfold syscall_codes in Hn.
  repeat (apply not_elem_of_cons in Hn; destruct Hn as [? Hn]).
  repeat (match goal with
          | |- context [?a =? ?b] => destruct (Z.eqb_spec a b)
          end; try congruence).
Qed.

Lemma trap_known_or_not which k :
  (which <> SYSCALL_EXCEPTION \/ registers (machine k) 2 ∉ syscall_codes) \/
  (which = SYSCALL_EXCEPTION /\ registers (machine k) 2 ∈ syscall_codes).
Proof.
  destruct (decide (which = SYSCALL_EXCEPTION)); [| now left; left].
  destruct (decide (registers (machine k) 2 ∈ syscall_codes));
    [now right | now left; right].
Qed.

Lemma Join_path k :
  codes_distinct -> registers (machine k) 2 = SC_Join ->
  let pid := registers (machine k) 4 in
  (pTable k !! pid = None /\
   path SYSCALL_EXCEPTION k = Leaves NullPointer) \/
  (exists t, pTable k !! pid = Some t /\
             threads k !! t ≫= exitStatus = None /\
             path SYSCALL_EXCEPTION k = Leaves Blocked) \/
  (exists t status, pTable k !! pid = Some t /\
                    threads k !! t ≫= exitStatus = Some status /\
                    path SYSCALL_EXCEPTION k = WritesBack).
Proof.
  intros Hd Ht pid. rewrite (path_SC_Join k Hd Ht). fold pid.
  destruct (pTable k !! pid) as [t |]; [| now left].
  destruct (threads k !! t ≫= exitStatus) as [status |] eqn:Hstatus.
  - right; right. now exists t, status.
  - right; left. now exists t.
Qed.

(** Linear arithmetic on the sizes, without the inequalities between
    the request codes. *)
Ltac sizes :=
  repeat match goal with H : _ ≠ _ |- _ => clear H end; lia.

(** Takes the hypotheses apart and closes a goal about request codes,
    sizes and table entries. *)
Ltac settle :=
  repeat match goal with
         | H : _ /\ _ |- _ => destruct H
         | H : exists _, _ |- _ => destruct H
         | H : _ \/ _ |- _ => destruct H
         | H : ?a = ?b -> _, H' : ?a = ?b |- _ => specialize (H H')
         end;
  try discriminate; try congruence; try contradiction; try reflexivity;
  try sizes.

(** Proves, from the hypotheses, a condition built from conjunctions,
    disjunctions and existentials. *)
Ltac witnessed :=
  match goal with
  | |- _ /\ _ => split; witnessed
  | |- _ \/ _ => solve [left; witnessed] || solve [right; witnessed]
  | |- exists _, _ => eexists; witnessed
  | |- _ => solve [eassumption | reflexivity | congruence | sizes]
  end.

Lemma path_Leaves which k why :
  codes_distinct ->
  path which k = Leaves why <-> leaves_when which k why.
Proof.
  intros Hd.
  destruct (trap_known_or_not which k) as [Hunknown | [Hsys Hin]].
  - rewrite (path_unknown which k Hunknown).
    destruct Hunknown as [Hne | Hn].
    + destruct why; cbn; intuition (discriminate || congruence).
    + pose proof Hn as Hn'. unfold syscall_codes in Hn'.
      repeat (apply not_elem_of_cons in Hn'; destruct Hn' as [? Hn']).
      clear Hn'.
      destruct why; cbn; intuition (discriminate || congruence).
  - subst which. pose proof Hd as Hd'.
    unfold codes_distinct, syscall_codes in Hd'. distinct Hd'.
    pose proof Hin as Hcode. unfold syscall_codes in Hcode.
    rewrite !elem_of_cons in Hcode.
    destruct Hcode as [Hc | [Hc | [Hc | [Hc | [Hc | [Hc | [Hc | [Hc |
                      [Hc | Hc]]]]]]]]];
      [ rewrite (path_SC_Halt k Hd Hc)
      | rewrite (path_SC_Create k Hd Hc)
      | destruct (Read_path k Hd Hc)
          as [(Hneg & ->) | [(Hpos & Hbig & ->) |
              [(Hfits & Hid & Hshort & ->) | (Hfits & Hhas & ->)]]]
      | destruct (Write_path k Hd Hc)
          as [(Hneg & ->) | [(Hpos & Hbig & ->) | (Hfits & ->)]]
      | rewrite (path_SC_Open k Hd Hc)
      | rewrite (path_SC_Close k Hd Hc)
      | rewrite (path_SC_Exit k Hd Hc)
      | destruct (Join_path k Hd Hc)
          as [(Hpid & ->) | [(t & Hpid & Hstatus & ->) |
              (t & status & Hpid & Hstatus & ->)]]
      | rewrite (path_SC_Exec k Hd Hc)
      | now apply elem_of_nil in Hc ];
      (split;
       [ intros Heq; first [discriminate Heq | injection Heq as <-];
         cbn; witnessed
       | intros Hl; destruct why; cbn in Hl; unfold array_fits in *;
         settle ]).
Qed.

Lemma path_returns which k :
  codes_distinct ->
  path which k = Advances \/ path which k = WritesBack
  <-> returns_when which k.
Proof.
  intros Hd. unfold returns_when.
  rewrite !elem_of_cons, elem_of_nil.
  destruct (trap_known_or_not which k) as [Hunknown | [Hsys Hin]].
  - rewrite (path_unknown which k Hunknown).
    destruct Hunknown as [Hne | Hn].
    + intuition (discriminate || congruence).
    + unfold syscall_codes in Hn.
      repeat (apply not_elem_of_cons in Hn; destruct Hn as [? Hn]).
      clear Hn. split; [intros Hp | intros Hr]; settle.
  - subst which. pose proof Hd as Hd'.
    unfold codes_distinct, syscall_codes in Hd'. distinct Hd'.
    unfold syscall_codes in Hin. rewrite !elem_of_cons in Hin.
    destruct Hin as [Hc | [Hc | [Hc | [Hc | [Hc | [Hc | [Hc | [Hc |
                    [Hc | Hc]]]]]]]]];
      [ rewrite (path_SC_Halt k Hd Hc)
      | rewrite (path_SC_Create k Hd Hc)
      | destruct (Read_path k Hd Hc)
          as [(Hneg & ->) | [(Hpos & Hbig & ->) |
              [(Hfits & Hid & Hshort & ->) | (Hfits & Hhas & ->)]]]
      | destruct (Write_path k Hd Hc)
          as [(Hneg & ->) | [(Hpos & Hbig & ->) | (Hfits & ->)]]
      | rewrite (path_SC_Open k Hd Hc)
      | rewrite (path_SC_Close k Hd Hc)
      | rewrite (path_SC_Exit k Hd Hc)
      | destruct (Join_path k Hd Hc)
          as [(Hpid & ->) | [(t & Hpid & Hstatus & ->) |
              (t & status & Hpid & Hstatus & ->)]]
      | rewrite (path_SC_Exec k Hd Hc)
      | now apply elem_of_nil in Hc ];
      (split;
       [ intros Hp;
         first [ solve [destruct Hp as [Hp | Hp]; discriminate Hp]
               | (split; [reflexivity |]); witnessed ]
       | intros Hr; unfold array_fits in *; settle; auto ]).
Qed.


Lemma follows_Done r k p :
  follows r k p -> p = Advances \/ p = WritesBack ->
  exists k', r = Done tt k'.
Proof.
  intros Hf [-> | ->].
  - destruct Hf as (k1 & -> & _). eexists. apply IncreasePC_Done.
  - destruct Hf as (v & k1 & -> & _).
    now exists (final ((WriteRegister 2 v;; IncreasePC) k1)).
Qed.



(** *** What the handler does to the registers *)

Lemma pc_regs_apart_distinct : pc_regs_apart -> pc_regs_distinct.
Proof.
  unfold pc_regs_apart, pc_regs_distinct. intros Hregs.
  do 5 (apply list.NoDup_cons in Hregs; destruct Hregs as [_ Hregs]).
  exact Hregs.
Qed.

Lemma follows_Advances r k :
  pc_regs_apart -> follows r k Advances ->
  exists k',
    r = Done tt k' /\
    pc_advanced (registers (machine k)) (registers (machine k')) /\
    (forall x, x <> PREV_PC_REG -> x <> PC_REG -> x <> NEXT_PC_REG ->
               registers (machine k') x = registers (machine k) x).
Proof.
  intros Hregs (k1 & -> & Hsame).
  destruct (IncreasePC_registers k1 (pc_regs_apart_distinct Hregs))
    as (Hprev & Hcur & Hnext & Hrest).
  rewrite Hsame in Hprev, Hcur, Hnext.
  exists (final (IncreasePC k1)). split; [apply IncreasePC_Done |].
  split; [repeat split; assumption |].
  intros x Hx1 Hx2 Hx3. rewrite Hrest by assumption. now rewrite Hsame.
Qed.

Lemma follows_WritesBack r k :
  pc_regs_apart -> follows r k WritesBack ->
  exists k',
    r = Done tt k' /\
    pc_advanced (registers (machine k)) (registers (machine k')) /\
    (forall x, x <> 2 -> x <> PREV_PC_REG -> x <> PC_REG ->
               x <> NEXT_PC_REG ->
               registers (machine k') x = registers (machine k) x).
Proof.
  intros Hregs (v & k1 & -> & Hsame).
  destruct (IncreasePC_registers (final (WriteRegister 2 v k1))
              (pc_regs_apart_distinct Hregs))
    as (Hprev & Hcur & Hnext & Hrest).
  unfold pc_regs_apart in Hregs. distinct Hregs.
  exists (final (IncreasePC (final (WriteRegister 2 v k1)))).
  split; [reflexivity |].
  cbn [final WriteRegister] in Hprev, Hcur, Hnext, Hrest.
  split; [repeat split |].
  - rewrite Hprev. simpl. rewrite fn_lookup_insert_ne by congruence.
    now rewrite Hsame.
  - rewrite Hcur. simpl. rewrite fn_lookup_insert_ne by congruence.
    now rewrite Hsame.
  - rewrite Hnext. simpl. rewrite fn_lookup_insert_ne by congruence.
    now rewrite Hsame.
  - intros x Hx0 Hx1 Hx2 Hx3. rewrite Hrest by assumption. simpl.
    rewrite fn_lookup_insert_ne by congruence. now rewrite Hsame.
Qed.

Lemma path_WritesBack which k :
  path which k = WritesBack ->
  registers (machine k) 2 ∈ [SC_Read; SC_Write; SC_Join; SC_Exec].
Proof.
  unfold path.
  repeat match goal with
         | |- context [?a =? ?b] => destruct (Z.eqb_spec a b)
         end;
    try discriminate;
    repeat match goal with
           | |- context [match ?o with Some _ => _ | None => _ end] =>
               destruct o
           end;
    try discriminate; intros _;
    match goal with
    | Hc : registers (machine k) 2 = _ |- _ => rewrite Hc
    end; set_solver.
Qed.

(** X3.  The program counter moves exactly when the handler returns: a trap
    that comes back has the previous PC, the PC and the next PC moved on by
    one instruction, once; a trap that does not come back leaves the whole
    register file as it was. *)
Theorem handler_program_counter which k :
  pc_regs_apart ->
  match ExceptionHandler which k with
  | Done _ k' =>
      pc_advanced (registers (machine k)) (registers (machine k'))
  | Stopped _ k' => machine k' = machine k
  end.
Proof.
  intros Hregs. pose proof (handler_follows_path which k) as Hf.
  destruct (path which k) as [why | |].
  - destruct Hf as (k1 & -> & Hsame). exact Hsame.
  - destruct (follows_Advances _ k Hregs Hf) as (k' & -> & Hpc & _).
    exact Hpc.
  - destruct (follows_WritesBack _ k Hregs Hf) as (k' & -> & Hpc & _).
    exact Hpc.
Qed.

(** X4.  The handler writes no register but [r2] and the three program
    counters: the argument registers and all others keep their values through
    every trap; and [r2] itself keeps the request code unless the call is
    [Read], [Write], [Join] or [Exec]. *)
Theorem handler_register_frame which k :
  pc_regs_apart ->
  let k' := final (ExceptionHandler which k) in
  (forall x, x <> 2 -> x <> PREV_PC_REG -> x <> PC_REG ->
             x <> NEXT_PC_REG ->
             registers (machine k') x = registers (machine k) x) /\
  (registers (machine k) 2 ∉ [SC_Read; SC_Write; SC_Join; SC_Exec] ->
   registers (machine k') 2 = registers (machine k) 2).
Proof.
  intros Hregs k'. subst k'.
  pose proof (handler_follows_path which k) as Hf.
  pose proof (path_WritesBack which k) as Hcodes.
  destruct (path which k) as [why | |].
  - destruct Hf as (k1 & -> & Hsame). cbn [final]. rewrite Hsame.
    split; reflexivity.
  - destruct (follows_Advances _ k Hregs Hf) as (k' & -> & _ & Hrest).
    cbn [final]. unfold pc_regs_apart in Hregs. distinct Hregs.
    split; [intros x _; apply Hrest |].
    intros _. apply Hrest; congruence.
  - destruct (follows_WritesBack _ k Hregs Hf) as (k' & -> & _ & Hrest).
    cbn [final]. split; [exact Hrest |].
    intros Hnot. destruct (Hnot (Hcodes eq_refl)).
Qed.

(** *** [Create], [Open] of a file that exists, [Close] *)

Lemma case_SC_Create_run k :
  let fname := registers (machine k) 4 in
  let name := user_string k fname 256 in
  case_SC_Create k
  = IncreasePC
      (with_trace (fun t => (t ++ [EvReadStringFromUser fname name])
                            ++ [EvCreate name])
         (with_fileSystem (fun fs => {[name]} ∪ fs) k)).
Proof. reflexivity. Qed.

Lemma case_SC_Close_run k :
  let fid := registers (machine k) 4 in
  case_SC_Close k
  = IncreasePC
      (with_trace (fun t => t ++ [EvRemoveFile fid])
         (with_threads (alter (with_files (delete fid)) (currentThread k))
            k)).
Proof. reflexivity. Qed.

Lemma free_handle_Some tbl fuel : forall h0 h,
  free_handle tbl h0 fuel = Some h ->
  h0 <= h < h0 + Z.of_nat fuel /\
  h <> ConsoleInput /\ h <> ConsoleOutput /\ tbl !! h = None /\
  (forall j, h0 <= j < h ->
             j = ConsoleInput \/ j = ConsoleOutput \/ is_Some (tbl !! j)).
Proof.
  induction fuel as [| fuel IH]; intros h0 h Hfree; [discriminate |].
  cbn [free_handle] in Hfree.
  destruct (bool_decide (h0 = ConsoleInput)) eqn:Hin.
  { apply bool_decide_eq_true in Hin. cbn [orb] in Hfree.
    destruct (IH _ _ Hfree) as (Hrange & Hci & Hco & Hnone & Hleast).
    split; [lia |]. repeat split; try assumption.
    intros j Hj. destruct (decide (j = h0)) as [-> | Hne]; [now left |].
    apply Hleast. lia. }
  destruct (bool_decide (h0 = ConsoleOutput)) eqn:Hout.
  { apply bool_decide_eq_true in Hout. cbn [orb] in Hfree.
    destruct (IH _ _ Hfree) as (Hrange & Hci & Hco & Hnone & Hleast).
    split; [lia |]. repeat split; try assumption.
    intros j Hj. destruct (decide (j = h0)) as [-> | Hne];
      [now right; left |].
    apply Hleast. lia. }
  destruct (bool_decide (is_Some (tbl !! h0))) eqn:Hbound.
  { apply bool_decide_eq_true in Hbound. cbn [orb] in Hfree.
    destruct (IH _ _ Hfree) as (Hrange & Hci & Hco & Hnone & Hleast).
    split; [lia |]. repeat split; try assumption.
    intros j Hj. destruct (decide (j = h0)) as [-> | Hne];
      [now right; right |].
    apply Hleast. lia. }
  cbn [orb] in Hfree. injection Hfree as <-.
  apply bool_decide_eq_false in Hin, Hout, Hbound.
  split; [lia |]. repeat split; try assumption.
  - now apply eq_None_not_Some.
  - intros j Hj. lia.
Qed.

Lemma free_handle_None tbl fuel : forall h0,
  free_handle tbl h0 fuel = None ->
  forall j, h0 <= j < h0 + Z.of_nat fuel ->
            j = ConsoleInput \/ j = ConsoleOutput \/ is_Some (tbl !! j).
Proof.
  induction fuel as [| fuel IH]; intros h0 Hfull j Hj; [lia |].
  cbn [free_handle] in Hfull.
  destruct (decide (j = h0)) as [-> | Hne].
  - destruct (bool_decide (h0 = ConsoleInput)) eqn:Hin;
      [apply bool_decide_eq_true in Hin; now left |].
    destruct (bool_decide (h0 = ConsoleOutput)) eqn:Hout;
      [apply bool_decide_eq_true in Hout; now right; left |].
    destruct (bool_decide (is_Some (tbl !! h0))) eqn:Hbound;
      [apply bool_decide_eq_true in Hbound; now right; right |].
    discriminate Hfull.
  - destruct (bool_decide (h0 = ConsoleInput)
              || bool_decide (h0 = ConsoleOutput)
              || bool_decide (is_Some (tbl !! h0)));
      [| discriminate Hfull].
    apply (IH (h0 + 1) Hfull). lia.
Qed.

Lemma case_SC_Open_bound k h :
  let pname := registers (machine k) 4 in
  let name := user_string k pname 256 in
  let file := {| of_name := name |} in
  name ∈ fileSystem k ->
  free_handle (current_files k) 0 NumOpenFiles = Some h ->
  case_SC_Open k
  = IncreasePC
      (with_trace (fun t => ((t ++ [EvReadStringFromUser pname name])
                             ++ [EvOpen name (Some file)])
                            ++ [EvAddFile file h])
         (with_threads (alter (with_files <[h := file]>) (currentThread k))
            k)).
Proof.
  intros pname name file Hfound Hfree.
  destruct (free_handle_Some _ _ _ _ Hfree) as (Hrange & _).
  unfold case_SC_Open, AddFile, delete_file. run.
  change (user_string _ (registers (machine k) 4) 256) with name.
  cbn [fileSystem with_trace].
  rewrite !(bool_decide_eq_true_2 _ Hfound).
  change (current_files _) with (current_files k). rewrite Hfree.
  cbn beta iota.
  destruct (Z.ltb_spec h 0) as [Hneg | _]; [lia |]. reflexivity.
Qed.

Lemma case_SC_Open_full k :
  let pname := registers (machine k) 4 in
  let name := user_string k pname 256 in
  let file := {| of_name := name |} in
  name ∈ fileSystem k ->
  free_handle (current_files k) 0 NumOpenFiles = None ->
  case_SC_Open k
  = IncreasePC
      (with_trace (fun t => (((t ++ [EvReadStringFromUser pname name])
                              ++ [EvOpen name (Some file)])
                             ++ [EvAddFile file (-1)])
                            ++ [EvDelete file]) k).
Proof.
  intros pname name file Hfound Hfull.
  unfold case_SC_Open, AddFile, delete_file. run.
  change (user_string _ (registers (machine k) 4) 256) with name.
  cbn [fileSystem with_trace].
  rewrite !(bool_decide_eq_true_2 _ Hfound).
  change (current_files _) with (current_files k). rewrite Hfull.
  reflexivity.
Qed.

Lemma current_files_alter k k1 f :
  threads k1 = alter (with_files f) (currentThread k) (threads k) ->
  currentThread k1 = currentThread k ->
  is_Some (threads k !! currentThread k) ->
  current_files k1 = f (current_files k).
Proof.
  intros Hth Hcur [th Hsome]. unfold current_files.
  rewrite Hth, Hcur, lookup_alter_eq, Hsome. reflexivity.
Qed.

(** X6.  [Open] of a file that exists, with room in the table: the file is
    bound to the smallest handle that is neither a console handle nor in use,
    in the table of the calling thread and nowhere else, and is not deleted;
    the handle is not written to any register. *)
Theorem Open_binds_smallest_free k :
  codes_distinct -> pc_regs_apart ->
  registers (machine k) 2 = SC_Open ->
  let pname := registers (machine k) 4 in
  let name := user_string k pname 256 in
  let file := {| of_name := name |} in
  name ∈ fileSystem k ->
  is_Some (threads k !! currentThread k) ->
  (exists j, 0 <= j < Z.of_nat NumOpenFiles /\ j <> ConsoleInput /\
             j <> ConsoleOutput /\ current_files k !! j = None) ->
  exists h k',
    ExceptionHandler SYSCALL_EXCEPTION k = Done tt k' /\
    (0 <= h < Z.of_nat NumOpenFiles /\ h <> ConsoleInput /\
     h <> ConsoleOutput /\ current_files k !! h = None) /\
    (forall j, 0 <= j < h ->
       j = ConsoleInput \/ j = ConsoleOutput \/
       is_Some (current_files k !! j)) /\
    current_files k' = <[h := file]> (current_files k) /\
    (forall t, t <> currentThread k -> threads k' !! t = threads k !! t) /\
    registers (machine k') 2 = SC_Open /\
    trace k'
    = trace k
      ++ [EvReadStringFromUser pname name; EvOpen name (Some file);
          EvAddFile file h]
      ++ pc_writes (registers (machine k)).
Proof.
  intros Hcodes Hregs Htype pname name file Hfound Hthread
         (j & Hj & Hj1 & Hj2 & Hjfree).
  destruct (free_handle (current_files k) 0 NumOpenFiles) as [h |] eqn:Hfree.
  2:{ destruct (free_handle_None _ _ _ Hfree j Hj) as [? | [? | [f Hf]]];
        congruence. }
  destruct (free_handle_Some _ _ _ _ Hfree)
    as (Hrange & Hci & Hco & Hnone & Hleast).
  rewrite (handler_SC_Open k Hcodes Htype).
  rewrite (case_SC_Open_bound k h Hfound Hfree). fold pname name file.
  match goal with
  | |- context [IncreasePC ?k1] =>
      destruct (resume k1 Hregs) as (k' & Hrun & Hsame & Htrace & Hkeeps)
  end.
  destruct Hkeeps as (_ & _ & _ & _ & Hth & Hcur & _).
  exists h, k'. split; [exact Hrun |].
  split; [repeat split; (assumption || lia) |].
  split; [exact Hleast |].
  split; [now apply (current_files_alter k k' _ Hth Hcur) |].
  split; [intros t Ht; rewrite Hth; simpl; now rewrite lookup_alter_ne |].
  unfold pc_regs_apart in Hregs. distinct Hregs.
  split; [rewrite Hsame by congruence; exact Htype |].
  rewrite Htrace. simpl. now rewrite <- !app_assoc.
Qed.

(** X7.  [Open] of a file that exists, with every handle of the table a
    console handle or in use: [AddFile] yields -1 and the handler deletes the
    open file; the table and the rest of the kernel are as before. *)
Theorem Open_full_table_deletes k :
  codes_distinct -> pc_regs_apart ->
  registers (machine k) 2 = SC_Open ->
  let pname := registers (machine k) 4 in
  let name := user_string k pname 256 in
  let file := {| of_name := name |} in
  name ∈ fileSystem k ->
  (forall j, 0 <= j < Z.of_nat NumOpenFiles ->
     j = ConsoleInput \/ j = ConsoleOutput \/
     is_Some (current_files k !! j)) ->
  exists k',
    ExceptionHandler SYSCALL_EXCEPTION k = Done tt k' /\
    keeps_kernel k k' /\
    registers (machine k') 2 = SC_Open /\
    trace k'
    = trace k
      ++ [EvReadStringFromUser pname name; EvOpen name (Some file);
          EvAddFile file (-1); EvDelete file]
      ++ pc_writes (registers (machine k)).
Proof.
  intros Hcodes Hregs Htype pname name file Hfound Hfull.
  destruct (free_handle (current_files k) 0 NumOpenFiles) as [h |] eqn:Hfree.
  { destruct (free_handle_Some _ _ _ _ Hfree)
      as (Hrange & Hci & Hco & Hnone & _).
    destruct (Hfull h ltac:(lia)) as [? | [? | [f Hf]]]; congruence. }
  rewrite (handler_SC_Open k Hcodes Htype).
  rewrite (case_SC_Open_full k Hfound Hfree). fold pname name file.
  match goal with
  | |- context [IncreasePC ?k1] =>
      destruct (resume k1 Hregs) as (k' & Hrun & Hsame & Htrace & Hkeeps)
  end.
  exists k'. split; [exact Hrun |]. split; [exact Hkeeps |].
  unfold pc_regs_apart in Hregs. distinct Hregs.
  split; [rewrite Hsame by congruence; exact Htype |].
  rewrite Htrace. simpl. now rewrite <- !app_assoc.
Qed.

(** X8.  [Close] takes the handle in [r4] as it is: afterwards that handle is
    unbound in the table of the calling thread, every other handle and every
    other thread is as before, and closing a handle that is not bound changes
    no table at all. *)
Theorem Close_unbinds k :
  codes_distinct -> pc_regs_apart ->
  registers (machine k) 2 = SC_Close ->
  let fid := registers (machine k) 4 in
  exists k',
    ExceptionHandler SYSCALL_EXCEPTION k = Done tt k' /\
    current_files k' = delete fid (current_files k) /\
    (forall t, t <> currentThread k -> threads k' !! t = threads k !! t) /\
    (current_files k !! fid = None -> threads k' = threads k) /\
    registers (machine k') 2 = SC_Close /\
    trace k'
    = trace k ++ [EvRemoveFile fid] ++ pc_writes (registers (machine k)).
Proof.
  intros Hcodes Hregs Htype fid.
  rewrite (handler_SC_Close k Hcodes Htype), case_SC_Close_run. fold fid.
  match goal with
  | |- context [IncreasePC ?k1] =>
      destruct (resume k1 Hregs) as (k' & Hrun & Hsame & Htrace & Hkeeps)
  end.
  destruct Hkeeps as (_ & _ & _ & _ & Hth & Hcur & _).
  simpl in Hth, Hcur.
  exists k'. split; [exact Hrun |].
  split; [| split; [| split; [| split]]].
  - unfold current_files. rewrite Hth, Hcur, lookup_alter_eq.
    destruct (threads k !! currentThread k) as [th |]; simpl;
      [reflexivity | now rewrite delete_empty].
  - intros t Ht. rewrite Hth. now rewrite lookup_alter_ne.
  - intros Hunbound. rewrite Hth. apply map_eq. intros t.
    destruct (decide (t = currentThread k)) as [-> | Hne];
      [| now rewrite lookup_alter_ne].
    rewrite lookup_alter_eq. unfold current_files in Hunbound.
    destruct (threads k !! currentThread k) as [th |]; [| reflexivity].
    simpl in *. f_equal. destruct th as [n sp fl sd st fk].
    unfold with_files. simpl in *. f_equal. now apply delete_id.
  - unfold pc_regs_apart in Hregs. distinct Hregs.
    rewrite Hsame by congruence. exact Htype.
  - rewrite Htrace. simpl. now rewrite <- !app_assoc.
Qed.

Lemma Close_after k :
  codes_distinct -> pc_regs_apart ->
  registers (machine k) 2 = SC_Close ->
  exists k',
    ExceptionHandler SYSCALL_EXCEPTION k = Done tt k' /\
    threads k'
    = alter (with_files (delete (registers (machine k) 4)))
        (currentThread k) (threads k).
Proof.
  intros Hcodes Hregs Htype.
  rewrite (handler_SC_Close k Hcodes Htype), case_SC_Close_run.
  match goal with
  | |- context [IncreasePC ?k1] =>
      destruct (resume k1 Hregs) as (k' & Hrun & _ & _ & Hkeeps)
  end.
  destruct Hkeeps as (_ & _ & _ & _ & Hth & _).
  exists k'. split; [exact Hrun | exact Hth].
Qed.

(** *** Calls one after the other *)

(** X9.  [Open] and then [Close] of the handle it bound: the descriptor tables
    are again what they were before the [Open]. *)
Theorem Open_then_Close k k1 k2 h :
  codes_distinct -> pc_regs_apart ->
  registers (machine k) 2 = SC_Open ->
  ExceptionHandler SYSCALL_EXCEPTION k = Done tt k1 ->
  current_files k !! h = None ->
  is_Some (current_files k1 !! h) ->
  threads k2 = threads k1 ->
  currentThread k2 = currentThread k ->
  registers (machine k2) 2 = SC_Close ->
  registers (machine k2) 4 = h ->
  exists k3,
    ExceptionHandler SYSCALL_EXCEPTION k2 = Done tt k3 /\
    threads k3 = threads k.
Proof.
  intros Hcodes Hregs Htype Hopen Hfree Hbound Hth2 Hcur2 Htype2 Hfid.
  rewrite (handler_SC_Open k Hcodes Htype) in Hopen.
  assert (threads k1
          = alter (with_files <[h := {| of_name :=
                     user_string k (registers (machine k) 4) 256 |}]>)
              (currentThread k) (threads k) /\
          currentThread k1 = currentThread k) as [Hth1 Hcur1].
  { destruct (decide (user_string k (registers (machine k) 4) 256
                      ∈ fileSystem k)) as [Hfound | Hmissing].
    - destruct (free_handle (current_files k) 0 NumOpenFiles) as [h' |]
        eqn:Hfree'.
      + rewrite (case_SC_Open_bound k h' Hfound Hfree') in Hopen.
        injection Hopen as <-. cbn [threads currentThread] in *.
        destruct (decide (h' = h)) as [-> | Hne]; [now split |].
        exfalso. destruct Hbound as [f Hf].
        unfold current_files in Hf, Hfree. simpl in Hf.
        rewrite lookup_alter_eq in Hf.
        destruct (threads k !! currentThread k) as [th |];
          [| discriminate Hf].
        simpl in *. rewrite lookup_insert_ne in Hf by assumption.
        congruence.
      + rewrite (case_SC_Open_full k Hfound Hfree') in Hopen.
        injection Hopen as <-. exfalso. destruct Hbound as [f Hf].
        unfold current_files in Hf, Hfree. simpl in Hf. congruence.
    - rewrite (case_SC_Open_missing k Hmissing) in Hopen.
      injection Hopen as <-. exfalso. destruct Hbound as [f Hf].
      unfold current_files in Hf, Hfree. simpl in Hf. congruence. }
  destruct (Close_after k2 Hcodes Hregs Htype2) as (k3 & Hrun & Hth3).
  exists k3. split; [exact Hrun |].
  rewrite Hth3, Hfid, Hth2, Hcur2, Hth1. apply map_eq. intros t.
  destruct (decide (t = currentThread k)) as [-> | Hne];
    [| now rewrite !lookup_alter_ne].
  rewrite !lookup_alter_eq. unfold current_files in Hfree.
  destruct (threads k !! currentThread k) as [th |]; [| reflexivity].
  simpl in *. f_equal. destruct th as [n sp fl sd st fk].
  unfold with_files. simpl in *. f_equal. now apply delete_insert_id.
Qed.

(** *** [Exec] of a program that exists *)

Lemma case_SC_Exec_found k :
  let pname := registers (machine k) 4 in
  let pargs := registers (machine k) 5 in
  let name := user_string k pname 256 in
  let file := {| of_name := name |} in
  let t := fresh (dom (threads k)) in
  let pid := fresh (dom (pTable k)) in
  name ∈ fileSystem k ->
  exists k1,
    case_SC_Exec k = (WriteRegister 2 pid;; IncreasePC) k1 /\
    machine k1 = machine k /\
    stack k1 = stack k /\
    fileSystem k1 = fileSystem k /\
    synchConsole k1 = synchConsole k /\
    threads k1 = <[t := spawned name pid pargs]> (threads k) /\
    currentThread k1 = currentThread k /\
    pTable k1 = <[pid := t]> (pTable k) /\
    trace k1
    = trace k
      ++ [EvReadStringFromUser pname name; EvOpen name (Some file);
          EvNewThread name t; EvNewAddressSpace file; EvSaveArgs pargs;
          EvFork t InitUserProc pargs].
Proof.
  intros pname pargs name file t pid Hfound.
  eexists. split.
  - run. change (user_string _ (registers (machine k) 4) 256) with name.
    cbn [fileSystem threads pTable with_trace with_threads with_pTable].
    rewrite !(bool_decide_eq_true_2 _ Hfound). cbn beta iota.
    fold t pid pargs.
    rewrite lookup_alter_eq, lookup_insert_eq. cbn [fmap option_fmap
      option_map default sid].
    reflexivity.
  - cbn [machine stack fileSystem synchConsole threads currentThread pTable
         trace with_trace with_threads with_pTable].
    repeat split.
    + now rewrite !alter_insert_eq.
    + now rewrite <- !app_assoc.
Qed.

Lemma Exec_after k :
  codes_distinct -> pc_regs_apart ->
  registers (machine k) 2 = SC_Exec ->
  user_string k (registers (machine k) 4) 256 ∈ fileSystem k ->
  exists t pid k',
    ExceptionHandler SYSCALL_EXCEPTION k = Done tt k' /\
    registers (machine k') 2 = pid /\
    pTable k' = <[pid := t]> (pTable k) /\
    threads k'
    = <[t := spawned (user_string k (registers (machine k) 4) 256) pid
                (registers (machine k) 5)]> (threads k).
Proof.
  intros Hcodes Hregs Htype Hfound.
  destruct (case_SC_Exec_found k Hfound)
    as (k1 & Hrun & _ & _ & _ & _ & Hth & _ & Hpt & _).
  destruct (write_back_then_resume (fresh (dom (pTable k))) k1 Hregs)
    as (k' & Hrun' & Hres & _ & _ & Hkeeps).
  destruct Hkeeps as (_ & _ & _ & _ & Hth' & _ & Hpt').
  exists (fresh (dom (threads k))), (fresh (dom (pTable k))), k'.
  split; [rewrite (handler_SC_Exec k Hcodes Htype), Hrun; exact Hrun' |].
  split; [exact Hres |].
  split; [now rewrite Hpt', Hpt | now rewrite Hth', Hth].
Qed.

(** X11.  [Exec] of a program that exists: the process id written to [r2] was
    not in use; it is now registered for a new thread object that carries the
    name, the address space made from the executable, an empty descriptor
    table, that id, no exit status yet, and the fork into [InitUserProc] with
    the arguments at [r5].  The threads and process ids there were are
    untouched, and the caller goes on. *)
Theorem Exec_spawns k :
  codes_distinct -> pc_regs_apart ->
  registers (machine k) 2 = SC_Exec ->
  let pname := registers (machine k) 4 in
  let pargs := registers (machine k) 5 in
  let name := user_string k pname 256 in
  let file := {| of_name := name |} in
  name ∈ fileSystem k ->
  exists t pid k',
    ExceptionHandler SYSCALL_EXCEPTION k = Done tt k' /\
    registers (machine k') 2 = pid /\
    pTable k !! pid = None /\
    threads k !! t = None /\
    pTable k' = <[pid := t]> (pTable k) /\
    threads k' = <[t := spawned name pid pargs]> (threads k) /\
    currentThread k' = currentThread k /\
    fileSystem k' = fileSystem k /\
    trace k'
    = trace k
      ++ [EvReadStringFromUser pname name; EvOpen name (Some file);
          EvNewThread name t; EvNewAddressSpace file; EvSaveArgs pargs;
          EvFork t InitUserProc pargs; EvWriteRegister 2 pid]
      ++ pc_writes (registers (machine k)).
Proof.
  intros Hcodes Hregs Htype pname pargs name file Hfound.
  destruct (case_SC_Exec_found k Hfound)
    as (k1 & Hrun & Hm & _ & Hfs & _ & Hth & Hcur & Hpt & Htrace).
  fold pname pargs name file in Hrun, Hth, Hpt, Htrace.
  destruct (write_back_then_resume (fresh (dom (pTable k))) k1 Hregs)
    as (k' & Hrun' & Hres & _ & Htrace' & Hkeeps).
  destruct Hkeeps as (_ & _ & Hfs' & _ & Hth' & Hcur' & Hpt').
  exists (fresh (dom (threads k))), (fresh (dom (pTable k))), k'.
  split; [rewrite (handler_SC_Exec k Hcodes Htype), Hrun; exact Hrun' |].
  split; [exact Hres |].
  split; [apply not_elem_of_dom, is_fresh |].
  split; [apply not_elem_of_dom, is_fresh |].
  split; [now rewrite Hpt', Hpt |].
  split; [now rewrite Hth', Hth |].
  split; [now rewrite Hcur', Hcur |].
  split; [now rewrite Hfs', Hfs |].
  rewrite Htrace', Htrace, Hm. now rewrite <- !app_assoc.
Qed.

(** X12.  [Exec] and then [Join] on the process id it returned: the id
    resolves in the process table, so the handler does not fault; the new
    process has not finished, so the caller waits. *)
Theorem Exec_then_Join k k1 k2 :
  codes_distinct -> pc_regs_apart ->
  registers (machine k) 2 = SC_Exec ->
  user_string k (registers (machine k) 4) 256 ∈ fileSystem k ->
  ExceptionHandler SYSCALL_EXCEPTION k = Done tt k1 ->
  pTable k2 = pTable k1 ->
  threads k2 = threads k1 ->
  registers (machine k2) 2 = SC_Join ->
  registers (machine k2) 4 = registers (machine k1) 2 ->
  exists k3, ExceptionHandler SYSCALL_EXCEPTION k2 = Stopped Blocked k3.
Proof.
  intros Hcodes Hregs Htype Hfound Hexec Hpt2 Hth2 Htype2 Hpid.
  destruct (Exec_after k Hcodes Hregs Htype Hfound)
    as (t & pid & k' & Hrun & Hres & Hpt & Hth).
  assert (k' = k1) as -> by congruence.
  rewrite (handler_SC_Join k2 Hcodes Htype2).
  eexists. apply (case_SC_Join_running k2 t).
  - rewrite Hpid, Hres, Hpt2, Hpt. apply lookup_insert_eq.
  - rewrite Hth2, Hth, lookup_insert_eq. reflexivity.
Qed.

Lemma case_SC_Exit_run k :
  let status := registers (machine k) 4 in
  case_SC_Exit k
  = Stopped Finished
      (with_trace (fun t => (t ++ [EvRemoveAllFiles]) ++ [EvFinish status])
         (with_threads
            (fun ts => alter (with_exitStatus status) (currentThread k)
                         (alter (with_files (fun _ => ∅)) (currentThread k)
                            ts)) k)).
Proof. reflexivity. Qed.

(** X13.  [Exit] and then [Join]: once a registered process has run [Exit],
    with whatever status, a [Join] on its process id no longer waits; it
    returns at once, with 0 in [r2]. *)
Theorem Exit_then_Join k k1 k2 pid :
  codes_distinct -> pc_regs_apart ->
  registers (machine k) 2 = SC_Exit ->
  pTable k !! pid = Some (currentThread k) ->
  is_Some (threads k !! currentThread k) ->
  ExceptionHandler SYSCALL_EXCEPTION k = Stopped Finished k1 ->
  pTable k2 = pTable k1 ->
  threads k2 = threads k1 ->
  registers (machine k2) 2 = SC_Join ->
  registers (machine k2) 4 = pid ->
  exists k3,
    ExceptionHandler SYSCALL_EXCEPTION k2 = Done tt k3 /\
    registers (machine k3) 2 = 0.
Proof.
  intros Hcodes Hregs Htype Hreg [th Hth] Hexit Hpt2 Hth2 Htype2 Hpid.
  rewrite (handler_SC_Exit k Hcodes Htype), case_SC_Exit_run in Hexit.
  injection Hexit as <-. cbn [pTable threads with_trace with_threads] in *.
  rewrite (handler_SC_Join k2 Hcodes Htype2).
  rewrite (case_SC_Join_finished k2 (currentThread k)
             (registers (machine k) 4)).
  - match goal with
    | |- context [(WriteRegister 2 0;; IncreasePC) ?k'] =>
        destruct (write_back_then_resume 0 k' Hregs)
          as (k3 & Hrun & Hres & _)
    end.
    now exists k3.
  - now rewrite Hpid, Hpt2.
  - rewrite Hth2, !lookup_alter_eq, Hth. reflexivity.
Qed.

Lemma Open_found_calls k :
  codes_distinct -> pc_regs_apart ->
  registers (machine k) 2 = SC_Open ->
  let pname := registers (machine k) 4 in
  let name := user_string k pname 256 in
  let file := {| of_name := name |} in
  name ∈ fileSystem k ->
  exists fid k',
    ExceptionHandler SYSCALL_EXCEPTION k = Done tt k' /\
    trace k'
    = trace k
      ++ [EvReadStringFromUser pname name; EvOpen name (Some file);
          EvAddFile file fid]
      ++ (if fid <? 0 then [EvDelete file] else [])
      ++ pc_writes (registers (machine k)).
Proof.
  intros Hcodes Hregs Htype pname name file Hfound.
  rewrite (handler_SC_Open k Hcodes Htype).
  destruct (free_handle (current_files k) 0 NumOpenFiles) as [h |]
    eqn:Hfree.
  - destruct (free_handle_Some _ _ _ _ Hfree) as (Hrange & _).
    rewrite (case_SC_Open_bound k h Hfound Hfree). fold pname name file.
    match goal with
    | |- context [IncreasePC ?k1] =>
        destruct (resume k1 Hregs) as (k' & Hrun & _ & Htrace & _)
    end.
    exists h, k'. split; [exact Hrun |].
    destruct (Z.ltb_spec h 0) as [Hneg | _]; [lia |].
    rewrite Htrace. simpl. now rewrite <- !app_assoc.
  - rewrite (case_SC_Open_full k Hfound Hfree). fold pname name file.
    match goal with
    | |- context [IncreasePC ?k1] =>
        destruct (resume k1 Hregs) as (k' & Hrun & _ & Htrace & _)
    end.
    exists (-1), k'. split; [exact Hrun |].
    rewrite Htrace. simpl. now rewrite <- !app_assoc.
Qed.

(** X10.  [Create] and then [Open] of the same name: the file system has the
    file, so the [Open] goes on to [AddFile] instead of giving up with the
    handle -1; and the [Create] has taken no file away. *)
Theorem Create_then_Open k k1 k2 :
  codes_distinct -> pc_regs_apart ->
  registers (machine k) 2 = SC_Create ->
  ExceptionHandler SYSCALL_EXCEPTION k = Done tt k1 ->
  fileSystem k2 = fileSystem k1 ->
  mainMemory (machine k2) = mainMemory (machine k1) ->
  registers (machine k2) 2 = SC_Open ->
  registers (machine k2) 4 = registers (machine k) 4 ->
  let pname := registers (machine k) 4 in
  let name := user_string k pname 256 in
  let file := {| of_name := name |} in
  fileSystem k1 = {[name]} ∪ fileSystem k /\
  exists fid k3,
    ExceptionHandler SYSCALL_EXCEPTION k2 = Done tt k3 /\
    trace k3
    = trace k2
      ++ [EvReadStringFromUser pname name; EvOpen name (Some file);
          EvAddFile file fid]
      ++ (if fid <? 0 then [EvDelete file] else [])
      ++ pc_writes (registers (machine k2)).
Proof.
  intros Hcodes Hregs Htype Hcreate Hfs2 Hmem2 Htype2 Hname2
         pname name file.
  rewrite (handler_SC_Create k Hcodes Htype), case_SC_Create_run
    in Hcreate.
  fold pname name in Hcreate.
  injection Hcreate as <-.
  cbn [fileSystem machine with_trace with_fileSystem] in Hfs2, Hmem2.
  split; [reflexivity |].
  assert (user_string k2 (registers (machine k2) 4) 256 = name) as Hsame.
  { unfold name, user_string. fold pname. now rewrite Hname2, Hmem2. }
  destruct (Open_found_calls k2 Hcodes Hregs Htype2)
    as (fid & k3 & Hrun & Htrace).
  { rewrite Hsame, Hfs2. apply elem_of_union. left.
    now apply elem_of_singleton. }
  rewrite Hsame, Hname2 in Htrace. fold pname file in Htrace.
  now exists fid, k3.
Qed.

(** A [Read] or [Write] that has returned had an array that fits, and a
    [Read] on the console had its characters. *)
Lemma Read_returned k k' :
  case_SC_Read k = Done tt k' ->
  array_fits k /\
  (registers (machine k) 6 = ConsoleInput ->
   has_input k (turns (registers (machine k) 5))).
Proof.
  intros Hrun.
  destruct (decide (array_fits k /\
                    (registers (machine k) 6 = ConsoleInput ->
                     has_input k (turns (registers (machine k) 5)))))
    as [Hok | Hnot]; [exact Hok |].
  destruct (case_SC_Read_stops k Hnot) as (why & k1 & Hstop & _).
  congruence.
Qed.

Lemma Write_returned k k' :
  case_SC_Write k = Done tt k' -> array_fits k.
Proof.
  intros Hrun.
  destruct (decide (array_fits k)) as [Hok | Hnot]; [exact Hok |].
  destruct (case_SC_Write_stops k Hnot) as (why & k1 & Hstop & _).
  congruence.
Qed.

Lemma Read_console_memory k k' :
  pc_regs_apart ->
  registers (machine k) 6 = ConsoleInput ->
  let from := registers (machine k) 4 in
  let size := registers (machine k) 5 in
  is_int size -> 0 <= size ->
  case_SC_Read k = Done tt k' ->
  array_fits k /\
  synchConsole k'
  = {| incoming := incoming (synchConsole k);
       arrived := arrived (synchConsole k);
       consumed := consumed (synchConsole k) + Z.to_nat size;
       written := written (synchConsole k) |} /\
  map (fun j => mainMemory (machine k') (from + Z.of_nat j))
      (seq 0 (Z.to_nat size))
  = taken k (Z.to_nat size).
Proof.
  intros Hregs Hid from size Hint Hpos Hread.
  destruct (Read_returned k k' Hread) as [Hfits Hin].
  destruct (Read_console_run k Hregs Hfits Hid (Hin Hid))
    as (k1 & Hrun & _ & _ & Hcon & Hstack & Hmem & _).
  assert (k1 = k') as -> by congruence.
  fold from size in Hcon, Hstack, Hmem.
  rewrite (turns_nonneg size Hint Hpos) in Hcon, Hstack.
  split; [exact Hfits |]. split; [exact Hcon |].
  unfold taken. apply map_ext_in. intros j Hj. apply in_seq in Hj.
  rewrite Hmem, Hstack. rewrite bool_decide_eq_true_2 by lia.
  rewrite fill_lookup, taken_length.
  rewrite bool_decide_eq_true_2 by lia.
  replace (Z.to_nat (from + Z.of_nat j - from - 0)) with j by lia.
  apply taken_nth. lia.
Qed.

(** X14.  [Read] from the console into a user buffer and then [Write] of the
    same buffer to the console: what goes out are the characters that came in,
    in their order, added after what the console had already written. *)
Theorem Read_then_Write_echoes k k1 k2 :
  codes_distinct -> pc_regs_apart ->
  registers (machine k) 2 = SC_Read ->
  registers (machine k) 6 = ConsoleInput ->
  let from := registers (machine k) 4 in
  let size := registers (machine k) 5 in
  is_int size -> 0 <= size ->
  ExceptionHandler SYSCALL_EXCEPTION k = Done tt k1 ->
  mainMemory (machine k2) = mainMemory (machine k1) ->
  synchConsole k2 = synchConsole k1 ->
  registers (machine k2) 2 = SC_Write ->
  registers (machine k2) 4 = from ->
  registers (machine k2) 5 = size ->
  registers (machine k2) 6 = ConsoleOutput ->
  exists k3,
    ExceptionHandler SYSCALL_EXCEPTION k2 = Done tt k3 /\
    written (synchConsole k3)
    = written (synchConsole k) ++ taken k (Z.to_nat size) /\
    consumed (synchConsole k3)
    = (consumed (synchConsole k) + Z.to_nat size)%nat.
Proof.
  intros Hcodes Hregs Htype Hid from size Hint Hpos Hread Hmem2 Hcon2
         Htype2 Hfrom2 Hsize2 Hid2.
  rewrite (handler_SC_Read k Hcodes Htype) in Hread.
  destruct (Read_console_memory k k1 Hregs Hid Hint Hpos Hread)
    as (Hfits & Hcon1 & Hbytes).
  fold from size in Hcon1, Hbytes.
  assert (array_fits k2) as Hfits2.
  { unfold array_fits in *. now rewrite Hsize2. }
  rewrite (handler_SC_Write k2 Hcodes Htype2).
  destruct (Write_console_run k2 Hregs Hfits2 Hid2)
    as (k3 & Hrun & _ & _ & Hcon3 & _).
  rewrite Hfrom2, Hsize2 in Hcon3.
  rewrite (turns_nonneg size Hint Hpos) in Hcon3.
  rewrite fetched_user_bytes in Hcon3 by lia.
  rewrite Hmem2, Hbytes, Hcon2, Hcon1 in Hcon3. cbn [written consumed
    incoming arrived] in Hcon3.
  exists k3. split; [exact Hrun |]. rewrite Hcon3. split; reflexivity.
Qed.

(** *** What each call can touch *)

Ltac same_fields :=
  unfold same_but; repeat split; intros; try discriminate; reflexivity.

Lemma same_but_Halt k :
  same_but k (final (case_SC_Halt k)) false false false false false.
Proof. same_fields. Qed.

Lemma same_but_Create k :
  same_but k (final (case_SC_Create k)) true false false false false.
Proof. same_fields. Qed.

Lemma same_but_Close k :
  same_but k (final (case_SC_Close k)) false false true false false.
Proof. same_fields. Qed.

Lemma same_but_Exit k :
  same_but k (final (case_SC_Exit k)) false false true false false.
Proof. same_fields. Qed.

Lemma same_but_default k type :
  same_but k (final (case_default type k)) false false false false false.
Proof. same_fields. Qed.

Lemma same_but_Open k :
  same_but k (final (case_SC_Open k)) false false true false false.
Proof.
  destruct (decide (user_string k (registers (machine k) 4) 256
                    ∈ fileSystem k)) as [Hfound | Hmissing].
  - destruct (free_handle (current_files k) 0 NumOpenFiles) as [h |]
      eqn:Hfree.
    + rewrite (case_SC_Open_bound k h Hfound Hfree). same_fields.
    + rewrite (case_SC_Open_full k Hfound Hfree). same_fields.
  - rewrite (case_SC_Open_missing k Hmissing). same_fields.
Qed.

Lemma same_but_Join k :
  same_but k (final (case_SC_Join k)) false false false false false.
Proof.
  destruct (pTable k !! registers (machine k) 4) as [t |] eqn:Hpid.
  - destruct (threads k !! t ≫= exitStatus) as [status |] eqn:Hstatus.
    + rewrite (case_SC_Join_finished k t status Hpid Hstatus). same_fields.
    + rewrite (case_SC_Join_running k t Hpid Hstatus). same_fields.
  - rewrite (case_SC_Join_absent k Hpid). same_fields.
Qed.

Lemma same_but_Exec k :
  same_but k (final (case_SC_Exec k)) false true true false false.
Proof.
  destruct (decide (user_string k (registers (machine k) 4) 256
                    ∈ fileSystem k)) as [Hfound | Hmissing].
  - destruct (case_SC_Exec_found k Hfound)
      as (k1 & -> & Hm & Hst & Hfs & Hcon & _ & Hcur & _).
    unfold same_but. cbn.
    repeat split; intros; try discriminate; try assumption.
    now rewrite Hm.
  - rewrite (case_SC_Exec_missing k Hmissing). same_fields.
Qed.

Lemma same_but_Read k :
  same_but k (final (case_SC_Read k)) false false false true true.
Proof.
  destruct (Z_lt_le_dec (registers (machine k) 5) 0) as [Hneg | Hpos].
  { rewrite (case_SC_Read_negative k Hneg). same_fields. }
  destruct (Z_lt_le_dec StackRoom (registers (machine k) 5))
    as [Hbig | Hroom].
  { rewrite (case_SC_Read_oversize k Hpos Hbig). same_fields. }
  assert (array_fits k) as Hfits by (split; assumption).
  destruct (decide (registers (machine k) 6 = ConsoleInput))
    as [Hid | Hid].
  - destruct (decide (has_input k (turns (registers (machine k) 5))))
      as [Hin | Hin].
    + rewrite (case_SC_Read_console k Hfits Hid Hin). same_fields.
    + rewrite (case_SC_Read_waits k Hfits Hid Hin). same_fields.
  - rewrite (case_SC_Read_other k Hfits Hid). same_fields.
Qed.

Lemma same_but_Write k :
  same_but k (final (case_SC_Write k)) false false false true false.
Proof.
  destruct (Z_lt_le_dec (registers (machine k) 5) 0) as [Hneg | Hpos].
  { rewrite (case_SC_Write_negative k Hneg). same_fields. }
  destruct (Z_lt_le_dec StackRoom (registers (machine k) 5))
    as [Hbig | Hroom].
  { rewrite (case_SC_Write_oversize k Hpos Hbig). same_fields. }
  assert (array_fits k) as Hfits by (split; assumption).
  destruct (decide (registers (machine k) 6 = ConsoleOutput))
    as [Hid | Hid].
  - rewrite (case_SC_Write_console k Hfits Hid). same_fields.
  - rewrite (case_SC_Write_other k Hfits Hid). same_fields.
Qed.

Lemma footprint_from_flags which k k' fs pt th con mem :
  same_but k k' fs pt th con mem ->
  (fs = true -> is_call which k [SC_Create]) ->
  (pt = true -> is_call which k [SC_Exec]) ->
  (th = true -> is_call which k [SC_Open; SC_Close; SC_Exit; SC_Exec]) ->
  (con = true -> is_call which k [SC_Read; SC_Write]) ->
  (mem = true -> is_call which k [SC_Read]) ->
  currentThread k' = currentThread k /\
  (~ is_call which k [SC_Create] -> fileSystem k' = fileSystem k) /\
  (~ is_call which k [SC_Exec] -> pTable k' = pTable k) /\
  (~ is_call which k [SC_Open; SC_Close; SC_Exit; SC_Exec] ->
   threads k' = threads k) /\
  (~ is_call which k [SC_Read; SC_Write] ->
   synchConsole k' = synchConsole k /\ stack k' = stack k) /\
  (~ is_call which k [SC_Read] ->
   mainMemory (machine k') = mainMemory (machine k)).
Proof.
  intros (Hcur & Hfs & Hpt & Hth & Hcon & Hmem) Cfs Cpt Cth Ccon Cmem.
  split; [exact Hcur |].
  split; [intros Hn; destruct fs; [destruct (Hn (Cfs eq_refl)) | auto] |].
  split; [intros Hn; destruct pt; [destruct (Hn (Cpt eq_refl)) | auto] |].
  split; [intros Hn; destruct th; [destruct (Hn (Cth eq_refl)) | auto] |].
  split; [intros Hn; destruct con; [destruct (Hn (Ccon eq_refl)) | auto] |].
  intros Hn; destruct mem; [destruct (Hn (Cmem eq_refl)) | auto].
Qed.

(** X5.  What a trap can touch.  The running thread stays the running thread.
    The file system changes only in [Create], the process table only in
    [Exec], thread objects (descriptor tables, exit status, new threads) only
    in [Open], [Close], [Exit] and [Exec], the console and the kernel buffer
    only in [Read] and [Write], and user memory only in [Read]; a trap that is
    no system call changes none of them. *)
Theorem handler_footprint which k :
  let k' := final (ExceptionHandler which k) in
  currentThread k' = currentThread k /\
  (~ is_call which k [SC_Create] -> fileSystem k' = fileSystem k) /\
  (~ is_call which k [SC_Exec] -> pTable k' = pTable k) /\
  (~ is_call which k [SC_Open; SC_Close; SC_Exit; SC_Exec] ->
   threads k' = threads k) /\
  (~ is_call which k [SC_Read; SC_Write] ->
   synchConsole k' = synchConsole k /\ stack k' = stack k) /\
  (~ is_call which k [SC_Read] ->
   mainMemory (machine k') = mainMemory (machine k)).
Proof.
  intros k'. subst k'.
  remember (ExceptionHandler which k) as r eqn:Hr.
  unfold ExceptionHandler, bind at 1, ReadRegister at 1, gets at 1 in Hr.
  cbn beta iota in Hr.
  destruct (Z.eqb_spec which SYSCALL_EXCEPTION) as [Hsys | Hother].
  2:{ subst r.
      apply (footprint_from_flags which k _ false false false false false);
        [same_fields | discriminate ..]. }
  repeat match type of Hr with
         | context [registers (machine k) 2 =? ?c] =>
             destruct (Z.eqb_spec (registers (machine k) 2) c)
         end;
    subst r;
    [ apply (footprint_from_flags which k _ _ _ _ _ _ (same_but_Halt k))
    | apply (footprint_from_flags which k _ _ _ _ _ _ (same_but_Create k))
    | apply (footprint_from_flags which k _ _ _ _ _ _ (same_but_Read k))
    | apply (footprint_from_flags which k _ _ _ _ _ _ (same_but_Write k))
    | apply (footprint_from_flags which k _ _ _ _ _ _ (same_but_Open k))
    | apply (footprint_from_flags which k _ _ _ _ _ _ (same_but_Close k))
    | apply (footprint_from_flags which k _ _ _ _ _ _ (same_but_Exit k))
    | apply (footprint_from_flags which k _ _ _ _ _ _ (same_but_Join k))
    | apply (footprint_from_flags which k _ _ _ _ _ _ (same_but_Exec k))
    | apply (footprint_from_flags which k _ _ _ _ _ _
               (same_but_default k _)) ];
    intros; try discriminate;
    (split; [exact Hsys |]);
    match goal with
    | Hc : registers (machine k) 2 = _ |- _ => rewrite Hc
    end; set_solver.
Qed.

(** *** The result of console transfers, and where [Read] writes *)

(** X15.  A [Read] or [Write] on its console handle that returns reports
    the size it was asked for, and that size was not negative and fitted
    the kernel stack: no console transfer comes back with a negative count
    or with one beyond the room of the stack. *)
Theorem console_result_is_size k k' :
  codes_distinct -> pc_regs_apart ->
  let size := registers (machine k) 5 in
  let id := registers (machine k) 6 in
  is_int size ->
  (registers (machine k) 2 = SC_Read /\ id = ConsoleInput) \/
  (registers (machine k) 2 = SC_Write /\ id = ConsoleOutput) ->
  ExceptionHandler SYSCALL_EXCEPTION k = Done tt k' ->
  0 <= size <= StackRoom /\ registers (machine k') 2 = size.
Proof.
  intros Hcodes Hregs size id Hint [[Htype Hid] | [Htype Hid]] Hdone.
  - rewrite (handler_SC_Read k Hcodes Htype) in Hdone.
    destruct (Read_returned k k' Hdone) as [Hfits Hin].
    destruct (Read_console_run k Hregs Hfits Hid (Hin Hid))
      as (k1 & Hrun & Hres & _).
    assert (k1 = k') as -> by congruence.
    fold size in Hres. rewrite (to_int_to_unsigned size Hint) in Hres.
    split; [exact Hfits | exact Hres].
  - rewrite (handler_SC_Write k Hcodes Htype) in Hdone.
    pose proof (Write_returned k k' Hdone) as Hfits.
    destruct (Write_console_run k Hregs Hfits Hid)
      as (k1 & Hrun & Hres & _).
    assert (k1 = k') as -> by congruence.
    fold size in Hres. rewrite (to_int_to_unsigned size Hint) in Hres.
    split; [exact Hfits | exact Hres].
Qed.

(** The console and user memory after a [Read], however it ends. *)
Lemma Read_final k :
  let from := registers (machine k) 4 in
  let size := registers (machine k) 5 in
  let k' := final (case_SC_Read k) in
  written (synchConsole k') = written (synchConsole k) /\
  forall a, ~ (from <= a < from + size) ->
            mainMemory (machine k') a = mainMemory (machine k) a.
Proof.
  intros from size k'. subst k'.
  destruct (Z_lt_le_dec size 0) as [Hneg | Hpos].
  { rewrite (case_SC_Read_negative k Hneg). now split. }
  destruct (Z_lt_le_dec StackRoom size) as [Hbig | Hroom].
  { rewrite (case_SC_Read_oversize k Hpos Hbig). now split. }
  assert (array_fits k) as Hfits by (split; assumption).
  destruct (decide (registers (machine k) 6 = ConsoleInput))
    as [Hid | Hid].
  - destruct (decide (has_input k (turns size))) as [Hin | Hin].
    + rewrite (case_SC_Read_console k Hfits Hid Hin).
      split; [reflexivity |]. intros a Ha. fold from size. cbn.
      now rewrite bool_decide_eq_false_2.
    + rewrite (case_SC_Read_waits k Hfits Hid Hin). now split.
  - rewrite (case_SC_Read_other k Hfits Hid). now split.
Qed.

(** The console and user memory after a [Write], however it ends. *)
Lemma Write_final k :
  let k' := final (case_SC_Write k) in
  consumed (synchConsole k') = consumed (synchConsole k) /\
  mainMemory (machine k') = mainMemory (machine k).
Proof.
  intros k'. subst k'.
  destruct (Z_lt_le_dec (registers (machine k) 5) 0) as [Hneg | Hpos].
  { rewrite (case_SC_Write_negative k Hneg). now split. }
  destruct (Z_lt_le_dec StackRoom (registers (machine k) 5))
    as [Hbig | Hroom].
  { rewrite (case_SC_Write_oversize k Hpos Hbig). now split. }
  assert (array_fits k) as Hfits by (split; assumption).
  destruct (decide (registers (machine k) 6 = ConsoleOutput))
    as [Hid | Hid].
  - rewrite (case_SC_Write_console k Hfits Hid). now split.
  - rewrite (case_SC_Write_other k Hfits Hid). now split.
Qed.

(** X16.  [Read] writes user memory only in the buffer the caller named:
    however the call ends, every byte outside [from .. from + size - 1]
    is as before, whatever the handle and the size; with a size that is
    not positive no byte changes. *)
Theorem Read_writes_only_user_buffer k :
  codes_distinct ->
  registers (machine k) 2 = SC_Read ->
  let from := registers (machine k) 4 in
  let size := registers (machine k) 5 in
  let k' := final (ExceptionHandler SYSCALL_EXCEPTION k) in
  (forall a, ~ (from <= a < from + size) ->
             mainMemory (machine k') a = mainMemory (machine k) a) /\
  (size <= 0 ->
   forall a, mainMemory (machine k') a = mainMemory (machine k) a).
Proof.
  intros Hcodes Htype from size k'. subst k'.
  rewrite (handler_SC_Read k Hcodes Htype).
  destruct (Read_final k) as [_ Hout]. fold from size in Hout.
  split; [exact Hout |].
  intros Hsize a. apply Hout. lia.
Qed.

(** *** Thread objects and the process table *)

Lemma alter_twice {A} (f g : A -> A) (m : gmap Z A) i :
  alter g i (alter f i m) = alter (fun x => g (f x)) i m.
Proof.
  apply map_eq. intros j. destruct (decide (i = j)) as [-> | Hne].
  - rewrite !lookup_alter_eq. now destruct (m !! j).
  - now rewrite !lookup_alter_ne.
Qed.

Lemma thread_effect_same which k k' fs con mem :
  same_but k k' fs false false con mem -> thread_effect which k k'.
Proof.
  intros (_ & _ & Hpt & Hth & _). left. split; auto.
Qed.

Lemma thread_effect_Open k :
  thread_effect SYSCALL_EXCEPTION k (final (case_SC_Open k)).
Proof.
  destruct (decide (user_string k (registers (machine k) 4) 256
                    ∈ fileSystem k)) as [Hfound | Hmissing].
  - destruct (free_handle (current_files k) 0 NumOpenFiles) as [h |]
      eqn:Hfree.
    + rewrite (case_SC_Open_bound k h Hfound Hfree).
      destruct (free_handle_Some _ _ _ _ Hfree)
        as (Hrange & Hci & Hco & _).
      right. left. eexists. split; [reflexivity |].
      split; [reflexivity |]. split; [reflexivity |].
      split; [| now left].
      intros th h' Hsome. cbn [files with_files] in Hsome.
      apply lookup_insert_is_Some' in Hsome.
      destruct Hsome as [<- | Hold]; [right | now left].
      repeat split; (assumption || lia).
    + rewrite (case_SC_Open_full k Hfound Hfree). now left.
  - rewrite (case_SC_Open_missing k Hmissing). now left.
Qed.

Lemma thread_effect_Close k :
  thread_effect SYSCALL_EXCEPTION k (final (case_SC_Close k)).
Proof.
  right. left. eexists. split; [reflexivity |].
  split; [reflexivity |]. split; [reflexivity |].
  split; [| now left].
  intros th h Hsome. cbn [files with_files] in Hsome.
  apply lookup_delete_is_Some in Hsome. left. apply Hsome.
Qed.

Lemma thread_effect_Exit k :
  registers (machine k) 2 = SC_Exit ->
  thread_effect SYSCALL_EXCEPTION k (final (case_SC_Exit k)).
Proof.
  intros Htype. right. left.
  exists (fun th => with_exitStatus (registers (machine k) 4)
                      (with_files (fun _ => ∅) th)).
  split; [rewrite case_SC_Exit_run; cbn; now rewrite alter_twice |].
  split; [reflexivity |]. split; [reflexivity |].
  split.
  - intros th h [f Hf]. cbn in Hf. now rewrite lookup_empty in Hf.
  - intros th. right. split; [| reflexivity].
    split; [reflexivity |]. rewrite Htype. set_solver.
Qed.

Lemma thread_effect_Exec k :
  thread_effect SYSCALL_EXCEPTION k (final (case_SC_Exec k)).
Proof.
  destruct (decide (user_string k (registers (machine k) 4) 256
                    ∈ fileSystem k)) as [Hfound | Hmissing].
  - destruct (case_SC_Exec_found k Hfound)
      as (k1 & -> & _ & _ & _ & _ & Hth & _ & Hpt & _).
    right. right.
    exists (fresh (dom (threads k))), (fresh (dom (pTable k))).
    do 2 eexists.
    split; [apply not_elem_of_dom, is_fresh |].
    split; [apply not_elem_of_dom, is_fresh |].
    split; [exact Hth | exact Hpt].
  - rewrite (case_SC_Exec_missing k Hmissing). now left.
Qed.

Lemma handler_thread_effect which k :
  thread_effect which k (final (ExceptionHandler which k)).
Proof.
  remember (ExceptionHandler which k) as r eqn:Hr.
  unfold ExceptionHandler, bind at 1, ReadRegister at 1, gets at 1 in Hr.
  cbn beta iota in Hr.
  destruct (Z.eqb_spec which SYSCALL_EXCEPTION) as [-> | Hother];
    [| subst r; now left].
  repeat match type of Hr with
         | context [registers (machine k) 2 =? ?c] =>
             destruct (Z.eqb_spec (registers (machine k) 2) c)
         end;
    subst r.
  - now left.
  - now left.
  - apply (thread_effect_same _ _ _ _ _ _ (same_but_Read k)).
  - apply (thread_effect_same _ _ _ _ _ _ (same_but_Write k)).
  - apply thread_effect_Open.
  - apply thread_effect_Close.
  - now apply thread_effect_Exit.
  - apply (thread_effect_same _ _ _ _ _ _ (same_but_Join k)).
  - apply thread_effect_Exec.
  - now left.
Qed.

(** X17.  A trap touches the thread object of the running thread at most: the
    object of every other thread, with its descriptor table and its exit
    status, is after the trap what it was before, and no thread object goes
    away. *)
Theorem handler_isolation which k t th :
  t <> currentThread k ->
  threads k !! t = Some th ->
  threads (final (ExceptionHandler which k)) !! t = Some th.
Proof.
  intros Hother Hth.
  destruct (handler_thread_effect which k)
    as [[Hsame _] | [(f & Hsame & _) | (t' & pid & name & pargs & Hfresh
                                        & _ & Hsame & _)]];
    rewrite Hsame.
  - exact Hth.
  - now rewrite lookup_alter_ne.
  - rewrite lookup_insert_ne; [exact Hth | congruence].
Qed.

(** X18.  Only [Exit] records an exit status: a thread that has one after a
    trap had it before, or the trap was the [Exit] of that very thread and the
    status is its argument. *)
Theorem exit_status_only_by_Exit which k t status :
  threads (final (ExceptionHandler which k)) !! t ≫= exitStatus
  = Some status ->
  threads k !! t ≫= exitStatus = Some status \/
  (is_call which k [SC_Exit] /\ t = currentThread k /\
   status = registers (machine k) 4).
Proof.
  destruct (handler_thread_effect which k)
    as [[Hsame _] | [(f & Hsame & _ & _ & _ & Hstatus)
                    | (t' & pid & name & pargs & Hfresh
                       & _ & Hsame & _)]];
    rewrite Hsame; intros Hafter.
  - now left.
  - destruct (decide (t = currentThread k)) as [-> | Hne];
      [| rewrite lookup_alter_ne in Hafter by congruence; now left].
    rewrite lookup_alter_eq in Hafter.
    destruct (threads k !! currentThread k) as [th |];
      [| discriminate Hafter].
    cbn in Hafter. destruct (Hstatus th) as [Hkeep | [Hexit Hset]].
    + left. cbn. congruence.
    + right. split; [exact Hexit |]. split; [reflexivity |]. congruence.
  - destruct (decide (t = t')) as [-> | Hne];
      [| rewrite lookup_insert_ne in Hafter by congruence; now left].
    rewrite lookup_insert_eq in Hafter. discriminate Hafter.
Qed.

(** X19.  The process table stays sound through every trap: if every process
    id names a thread object that exists and carries that id, the same holds
    afterwards; in particular the id [Exec] hands out does. *)
Theorem pTable_ok_preserved which k :
  pTable_ok k -> pTable_ok (final (ExceptionHandler which k)).
Proof.
  intros Hok pid t.
  destruct (handler_thread_effect which k)
    as [[Hth Hpt] | [(f & Hth & Hpt & Hsid & _)
                    | (t' & pid' & name & pargs & Hfresh
                       & _ & Hth & Hpt)]];
    rewrite Hth, Hpt; intros Hpid.
  - now apply Hok.
  - destruct (Hok pid t Hpid) as (th & Hsome & Hid).
    destruct (decide (t = currentThread k)) as [-> | Hne].
    + exists (f th). rewrite lookup_alter_eq, Hsome.
      split; [reflexivity |]. now rewrite Hsid.
    + exists th. now rewrite lookup_alter_ne.
  - apply lookup_insert_Some in Hpid.
    destruct Hpid as [[<- <-] | [Hne Hpid]].
    + exists (spawned name pid' pargs). now rewrite lookup_insert_eq.
    + destruct (Hok pid t Hpid) as (th & Hsome & Hid).
      exists th. split; [| exact Hid].
      rewrite lookup_insert_ne; [exact Hsome | congruence].
Qed.

(** X20.  The descriptor tables stay sound through every trap: if no table
    binds a console handle or a handle outside the table, none does
    afterwards. *)
Theorem tables_ok_preserved which k :
  tables_ok k -> tables_ok (final (ExceptionHandler which k)).
Proof.
  intros Hok t th h.
  destruct (handler_thread_effect which k)
    as [[Hth _] | [(f & Hth & _ & _ & Hfiles & _)
                  | (t' & pid' & name & pargs & Hfresh & _ & Hth & _)]];
    rewrite Hth; intros Hsome Hbound.
  - now apply (Hok t th h).
  - destruct (decide (t = currentThread k)) as [-> | Hne].
    + rewrite lookup_alter_eq in Hsome.
      destruct (threads k !! currentThread k) as [th0 |] eqn:Hold;
        [| discriminate Hsome].
      injection Hsome as <-.
      destruct (Hfiles th0 h Hbound) as [Hwas | Hvalid];
        [| exact Hvalid].
      now apply (Hok (currentThread k) th0 h).
    + rewrite lookup_alter_ne in Hsome by congruence.
      now apply (Hok t th h).
  - apply lookup_insert_Some in Hsome.
    destruct Hsome as [[<- <-] | [Hne Hsome]].
    + destruct Hbound as [f Hf]. cbn in Hf.
      now rewrite lookup_empty in Hf.
    + now apply (Hok t th h).
Qed.

(** X21.  [Read] sends nothing to the console and [Write] takes nothing
    from it, whatever the handle and the size and however the call ends:
    [Read] leaves what the console has written as it is, [Write] leaves
    the position in the console input and user memory as they are. *)
Theorem console_directions k :
  codes_distinct ->
  let k' := final (ExceptionHandler SYSCALL_EXCEPTION k) in
  (registers (machine k) 2 = SC_Read ->
   written (synchConsole k') = written (synchConsole k)) /\
  (registers (machine k) 2 = SC_Write ->
   consumed (synchConsole k') = consumed (synchConsole k) /\
   mainMemory (machine k') = mainMemory (machine k)).
Proof.
  intros Hcodes k'. subst k'. split; intros Htype.
  - rewrite (handler_SC_Read k Hcodes Htype). apply Read_final.
  - rewrite (handler_SC_Write k Hcodes Htype). apply Write_final.
Qed.

(** *** The state a trap ends in *)

Lemma handler_Done_final which k :
  codes_distinct -> returns_when which k ->
  ExceptionHandler which k
  = Done tt (final (ExceptionHandler which k)).
Proof.
  intros Hd Hreturns. apply (path_returns which k Hd) in Hreturns.
  destruct (follows_Done _ k _ (handler_follows_path which k) Hreturns)
    as (k' & ->).
  reflexivity.
Qed.

Lemma handler_Stopped_final which k why :
  codes_distinct -> leaves_when which k why ->
  ExceptionHandler which k
  = Stopped why (final (ExceptionHandler which k)).
Proof.
  intros Hd Hleaves. apply (path_Leaves which k why Hd) in Hleaves.
  pose proof (handler_follows_path which k) as Hf.
  rewrite Hleaves in Hf. destruct Hf as (k1 & -> & _). reflexivity.
Qed.

End Properties.

(** ** The theorems on the concrete machine *)

Lemma nachos_codes_distinct : @codes_distinct nachos.
Proof. unfold codes_distinct. compute_done. Qed.

Lemma nachos_pc_regs_distinct : @pc_regs_distinct nachos.
Proof. unfold pc_regs_distinct. compute_done. Qed.

Lemma nachos_pc_regs_apart : @pc_regs_apart nachos.
Proof. unfold pc_regs_apart. compute_done. Qed.

(** PC 40, next PC 44: afterwards previous PC 40, PC 44, next PC 48. *)
Lemma IncreasePC_advances_witness :
  exists k',
    @IncreasePC nachos (sample 100 [(34, 40); (35, 44)]) = Done tt k' /\
    registers (machine k') 36 = 40 /\
    registers (machine k') 34 = 44 /\
    registers (machine k') 35 = 48.
Proof.
  destruct (@IncreasePC_advances nachos (sample 100 [(34, 40); (35, 44)])
              nachos_pc_regs_distinct)
    as (k' & Hrun & Hprev & Hpc & _ & Hnext & _).
  exists k'. split; [exact Hrun |]. split; [exact Hprev |].
  split; [exact Hpc |]. apply Hnext. vm_compute. split; discriminate.
Defined.

(** Request code 9999, and a trap of kind 5 that is no system call. *)
Lemma unknown_trap_is_fatal_witness :
  (exists k',
     @ExceptionHandler nachos 1 (sample 100 [(2, 9999)])
     = Stopped Aborted k' /\
     trace k' = [EvPrintf "Unkown syscall %d\n" [9999]; EvAssertFail]) /\
  (exists k',
     @ExceptionHandler nachos 5 (sample 100 [(2, 6)])
     = Stopped Aborted k' /\
     trace k' = [EvPrintf "Unexpected user mode exception %d %d\n" [5; 6];
                 EvPrintf "%d\n" [1]; EvAssertFail]).
Proof.
  split.
  - destruct (@unknown_trap_is_fatal nachos 1 (sample 100 [(2, 9999)]))
      as (k' & Hrun & Htrace & _).
    + right. compute_done.
    + exists k'. split; [exact Hrun | exact Htrace].
  - destruct (@unknown_trap_is_fatal nachos 5 (sample 100 [(2, 6)]))
      as (k' & Hrun & Htrace & _).
    + left. discriminate.
    + exists k'. split; [exact Hrun | exact Htrace].
Defined.

(** [Exec("missing.txt")]: -1 in [r2], the process table as it was. *)
Lemma Exec_missing_program_witness :
  let k := sample 100 [(2, 2); (4, 1000)] in
  exists k',
    @ExceptionHandler nachos 1 k = Done tt k' /\
    registers (machine k') 2 = -1 /\
    threads k' = threads k /\
    pTable k' = pTable k.
Proof.
  intros k.
  destruct (@Exec_missing_program nachos k nachos_codes_distinct
              nachos_pc_regs_apart eq_refl)
    as (k' & Hrun & Hres & Hth & Hpt & _).
  - compute_done.
  - exists k'. repeat split; assumption.
Defined.

(** [Open("missing.txt")]: [r2] still holds 5, the code of [Open]. *)
Lemma Open_missing_file_witness :
  let k := sample 100 [(2, 5); (4, 1000)] in
  exists k',
    @ExceptionHandler nachos 1 k = Done tt k' /\
    registers (machine k') 2 = 5 /\
    registers (machine k') 2 <> -1.
Proof.
  intros k.
  destruct (@Open_missing_file nachos k nachos_codes_distinct
              nachos_pc_regs_apart eq_refl)
    as (k' & Hrun & Hres & _).
  - compute_done.
  - exists k'. split; [exact Hrun |]. split; [exact Hres |].
    rewrite Hres. discriminate.
Defined.

(** [prog] runs [Exit(42)]. *)
Lemma Exit_never_resumes_witness :
  exists k',
    @ExceptionHandler nachos 1 (sample 200 [(2, 1); (4, 42)])
    = Stopped Finished k' /\
    trace k' = [EvRemoveAllFiles; EvFinish 42] /\
    threads k' !! 200 ≫= exitStatus = Some 42.
Proof.
  destruct (@Exit_never_resumes nachos (sample 200 [(2, 1); (4, 42)])
              nachos_codes_distinct eq_refl)
    as (k' & Hrun & Htrace & _ & _ & Hthread & _).
  exists k'. split; [exact Hrun |]. split; [exact Htrace |].
  change (currentThread (sample 200 [(2, 1); (4, 42)])) with 200 in Hthread.
  rewrite Hthread. reflexivity.
Defined.

(** [prog] (pid 1) has run [Exit(42)]; then [main] runs [Join(1)]. *)
Lemma Join_writes_zero_witness :
  let k := switch_to 100 [(2, 3); (4, 1)] after_Exit_42 in
  threads k !! 200 ≫= exitStatus = Some 42 /\
  exists k',
    @ExceptionHandler nachos 1 k = Done tt k' /\
    registers (machine k') 2 = 0.
Proof.
  intros k.
  assert (threads k !! 200 ≫= exitStatus = Some 42) as Hstatus
    by reflexivity.
  split; [exact Hstatus |].
  destruct (@Join_writes_zero nachos k 200 nachos_codes_distinct
              nachos_pc_regs_apart eq_refl eq_refl) as [_ Hfinished].
  destruct (Hfinished 42 Hstatus) as (k' & Hrun & Hres & _).
  exists k'. split; [exact Hrun | exact Hres].
Defined.

(** [Join(7)], no process 7. *)
Lemma Join_absent_pid_faults_witness :
  exists k',
    @ExceptionHandler nachos 1 (sample 100 [(2, 3); (4, 7)])
    = Stopped NullPointer k' /\
    trace k' = [EvGet 7 None; EvJoin None].
Proof.
  destruct (@Join_absent_pid_faults nachos (sample 100 [(2, 3); (4, 7)])
              nachos_codes_distinct eq_refl eq_refl)
    as (k' & Hrun & Htrace & _).
  exists k'. split; [exact Hrun | exact Htrace].
Defined.


(** [Read(3000, 3, ConsoleInput)]: the result 3 is in [r2]; [r4] still
    holds the buffer address, and no write to it was made. *)
Lemma Read_result_not_in_r4_counterexample :
  let k := sample 100 [(2, 6); (4, 3000); (5, 3); (6, 0)] in
  exists k',
    @ExceptionHandler nachos 1 k = Done tt k' /\
    registers (machine k') 2 = 3 /\
    registers (machine k') 4 = 3000 /\
    forall v, ~ In (EvWriteRegister 4 v) (trace k').
Proof.
  intros k.
  destruct (@Read_console_run nachos k nachos_pc_regs_apart
              ltac:(compute_done) eq_refl ltac:(compute_done))
    as (k' & Hrun & Hres & Hsame & _ & _ & _ & _ & Htrace).
  exists k'.
  split; [exact (eq_trans (@handler_SC_Read nachos k nachos_codes_distinct
                             eq_refl) Hrun) |].
  split; [exact Hres |].
  split; [apply Hsame; discriminate |].
  intros v Hin. rewrite Htrace in Hin.
  change (trace k) with (@nil Event) in Hin. cbn [app] in Hin.
  apply in_app_or in Hin. destruct Hin as [Hin | Hin].
  - apply in_map_iff in Hin. destruct Hin as (c & Hc & _). discriminate Hc.
  - vm_compute in Hin.
    repeat (destruct Hin as [Hin | Hin]; [discriminate Hin |]).
    exact Hin.
Qed.

(** [Read(3000, 3, ConsoleInput)]: 3 lands in [r2], [r4] is untouched. *)
Lemma result_goes_to_r2_witness :
  let k := sample 100 [(2, 6); (4, 3000); (5, 3); (6, 0)] in
  exists k',
    @ExceptionHandler nachos 1 k = Done tt k' /\
    registers (machine k') 4 = 3000 /\
    exists v calls,
      trace k'
      = calls
        ++ EvWriteRegister 2 v :: @pc_writes nachos (registers (machine k)) /\
      registers (machine k') 2 = v.
Proof.
  intros k.
  assert (registers (machine k) 2 ∈ [@SC_Read nachos; @SC_Write nachos;
                                     @SC_Join nachos; @SC_Exec nachos])
    as Htype by compute_done.
  assert (@ExceptionHandler nachos 1 k
          = Done tt (final (@ExceptionHandler nachos 1 k))) as Hdone.
  { apply (@handler_Done_final nachos 1 k nachos_codes_distinct).
    split; [reflexivity |]. right; left.
    split; [reflexivity |]. split; [compute_done |].
    intros _. compute_done. }
  pose proof (@result_goes_to_r2 nachos k nachos_codes_distinct
                nachos_pc_regs_apart Htype) as Hlands.
  change (@SYSCALL_EXCEPTION nachos) with 1 in Hlands.
  rewrite Hdone in Hlands.
  destruct Hlands as (v & calls & Htrace & _ & Hres & Hfirst & _).
  eexists. split; [exact Hdone |]. split; [exact Hfirst |].
  exists v, calls. split; [exact Htrace | exact Hres].
Defined.


(** ** The further theorems on the concrete machine *)

Lemma nachos_small_codes_distinct : @codes_distinct nachos_small.
Proof. unfold codes_distinct. compute_done. Qed.

Lemma nachos_small_pc_regs_apart : @pc_regs_apart nachos_small.
Proof. unfold pc_regs_apart. compute_done. Qed.

Lemma sample_pTable_ok running regs : pTable_ok (sample running regs).
Proof.
  intros pid t Hpid. cbn [pTable sample] in Hpid.
  apply lookup_insert_Some in Hpid.
  destruct Hpid as [[<- <-] | [_ Hpid]];
    [now exists main_thread |].
  apply lookup_singleton_Some in Hpid. destruct Hpid as [<- <-].
  now exists child_thread.
Qed.

Lemma sample_tables_ok running regs :
  @tables_ok nachos (sample running regs).
Proof.
  intros t th h Hth [f Hf]. cbn [threads sample] in Hth.
  apply lookup_insert_Some in Hth.
  destruct Hth as [[_ <-] | [_ Hth]];
    [cbn in Hf; now rewrite lookup_empty in Hf |].
  apply lookup_singleton_Some in Hth. destruct Hth as [_ <-].
  cbn in Hf. now rewrite lookup_empty in Hf.
Qed.



(** [Close(5)] returns with the program counters moved on; [Join(7)]
    does not return and no register has changed. *)
Lemma handler_program_counter_witness :
  (exists k',
     @ExceptionHandler nachos 1
       (sample 100 [(2, 8); (4, 5); (34, 40); (35, 44)]) = Done tt k' /\
     registers (machine k') 36 = 40 /\
     registers (machine k') 34 = 44 /\
     registers (machine k') 35 = 48) /\
  (exists why k',
     @ExceptionHandler nachos 1
       (sample 100 [(2, 3); (4, 7); (34, 40); (35, 44)])
     = Stopped why k' /\
     machine k'
     = machine (sample 100 [(2, 3); (4, 7); (34, 40); (35, 44)])).
Proof.
  split.
  - pose proof (@handler_program_counter nachos 1
                  (sample 100 [(2, 8); (4, 5); (34, 40); (35, 44)])
                  nachos_pc_regs_apart) as Hpc.
    rewrite (@handler_Done_final nachos 1 _ nachos_codes_distinct) in Hpc
      by (split; [reflexivity | left; compute_done]).
    destruct Hpc as (Hprev & Hcur & Hnext).
    eexists. split; [| split; [exact Hprev | split; [exact Hcur |]]].
    + apply (@handler_Done_final nachos 1 _ nachos_codes_distinct).
      split; [reflexivity | left; compute_done].
    + exact Hnext.
  - pose proof (@handler_program_counter nachos 1
                  (sample 100 [(2, 3); (4, 7); (34, 40); (35, 44)])
                  nachos_pc_regs_apart) as Hpc.
    rewrite (@handler_Stopped_final nachos 1 _ NullPointer
               nachos_codes_distinct) in Hpc
      by (split; [reflexivity | split; reflexivity]).
    exists NullPointer. eexists. split; [| exact Hpc].
    apply (@handler_Stopped_final nachos 1 _ NullPointer
             nachos_codes_distinct).
    split; [reflexivity | split; reflexivity].
Defined.

(** [Create("missing.txt")]: [r2] keeps the code 4, [r4] the address. *)
Lemma handler_register_frame_witness :
  let k := sample 100 [(2, 4); (4, 1000); (7, 77)] in
  let k' := final (@ExceptionHandler nachos 1 k) in
  registers (machine k') 2 = 4 /\
  registers (machine k') 4 = 1000 /\
  registers (machine k') 7 = 77.
Proof.
  intros k k'.
  destruct (@handler_register_frame nachos 1 k nachos_pc_regs_apart)
    as (Hrest & Hcode).
  split; [apply Hcode; compute_done |].
  split; apply Hrest; discriminate.
Defined.

(** [Create("missing.txt")] leaves threads, process table, console and
    user memory alone. *)
Lemma handler_footprint_witness :
  let k := sample 100 [(2, 4); (4, 1000)] in
  let k' := final (@ExceptionHandler nachos 1 k) in
  threads k' = threads k /\ pTable k' = pTable k /\
  synchConsole k' = synchConsole k /\
  mainMemory (machine k') = mainMemory (machine k).
Proof.
  intros k k'.
  destruct (@handler_footprint nachos 1 k)
    as (_ & _ & Hpt & Hth & Hcon & Hmem).
  assert (forall codes, 4 ∉ codes -> ~ @is_call nachos 1 k codes)
    as Hnot by (intros codes Hn [_ Hin]; now apply Hn).
  split; [apply Hth, Hnot; compute_done |].
  split; [apply Hpt, Hnot; compute_done |].
  split; [apply Hcon, Hnot; compute_done |].
  apply Hmem, Hnot; compute_done.
Defined.

(** [Open("prog")] by [main], whose table is empty: handle 2. *)
Lemma Open_binds_smallest_free_witness :
  let k := sample 100 [(2, 5); (4, 2000)] in
  exists k',
    @ExceptionHandler nachos 1 k = Done tt k' /\
    @current_files k' = {[ 2 := {| of_name := "prog" |} ]} /\
    registers (machine k') 2 = 5.
Proof.
  intros k.
  destruct (@Open_binds_smallest_free nachos k nachos_codes_distinct
              nachos_pc_regs_apart eq_refl)
    as (h & k' & Hrun & (Hrange & Hci & Hco & _) & Hleast & Hfiles & _
        & Hres & _).
  - compute_done.
  - now exists main_thread.
  - exists 2. repeat split; compute_done.
  - assert (h = 2) as ->.
    { destruct (Z_lt_le_dec h 3) as [Hlt | Hge]; [cbn in *; lia |].
      destruct (Hleast 2 ltac:(lia)) as [H0 | [H1 | [f Hf]]];
        [discriminate H0 | discriminate H1 | discriminate Hf]. }
    exists k'. split; [exact Hrun |]. split; [exact Hfiles | exact Hres].
Defined.

(** [Open("prog")] on the machine whose tables have no free slot. *)
Lemma Open_full_table_deletes_witness :
  let k := sample 100 [(2, 5); (4, 2000)] in
  exists k',
    @ExceptionHandler nachos_small 1 k = Done tt k' /\
    threads k' = threads k /\
    trace k'
    = [EvReadStringFromUser 2000 "prog";
       EvOpen "prog" (Some {| of_name := "prog" |});
       EvAddFile {| of_name := "prog" |} (-1);
       EvDelete {| of_name := "prog" |}]
      ++ @pc_writes nachos_small (registers (machine k)).
Proof.
  intros k.
  destruct (@Open_full_table_deletes nachos_small k
              nachos_small_codes_distinct nachos_small_pc_regs_apart
              eq_refl)
    as (k' & Hrun & Hkeeps & _ & Htrace).
  - compute_done.
  - intros j Hj. cbn in Hj. cbn. lia.
  - exists k'. split; [exact Hrun |].
    split; [apply Hkeeps | exact Htrace].
Defined.

(** [Close(5)] by [main], which has no handle 5. *)
Lemma Close_unbinds_witness :
  let k := sample 100 [(2, 8); (4, 5)] in
  exists k',
    @ExceptionHandler nachos 1 k = Done tt k' /\
    threads k' = threads k /\
    registers (machine k') 2 = 8.
Proof.
  intros k.
  destruct (@Close_unbinds nachos k nachos_codes_distinct
              nachos_pc_regs_apart eq_refl)
    as (k' & Hrun & _ & _ & Hsame & Hres & _).
  exists k'. split; [exact Hrun |].
  split; [apply Hsame; reflexivity | exact Hres].
Defined.

(** [main] opens [prog] and closes handle 2 again. *)
Lemma Open_then_Close_witness :
  let k := sample 100 [(2, 5); (4, 2000)] in
  let k1 := final (@ExceptionHandler nachos 1 k) in
  let k2 := switch_to 100 [(2, 8); (4, 2)] k1 in
  exists k3,
    @ExceptionHandler nachos 1 k2 = Done tt k3 /\
    threads k3 = threads k.
Proof.
  intros k. cbv zeta.
  assert (@returns_when nachos 1 k) as Hret
    by (split; [reflexivity | left; compute_done]).
  assert (is_Some (current_files (final (@ExceptionHandler nachos 1 k))
                   !! 2)) as Hbound.
  { exists {| of_name := "prog" |}. vm_compute. reflexivity. }
  revert Hbound.
  generalize (@handler_Done_final nachos 1 k nachos_codes_distinct Hret).
  generalize (final (@ExceptionHandler nachos 1 k)).
  intros k1 Hopen Hbound.
  exact (@Open_then_Close nachos k k1
           (switch_to 100 [(2, 8); (4, 2)] k1) 2 nachos_codes_distinct
           nachos_pc_regs_apart eq_refl Hopen eq_refl Hbound eq_refl
           eq_refl eq_refl eq_refl).
Defined.

(** [Create("missing.txt")], then [Open("missing.txt")]. *)
Lemma Create_then_Open_witness :
  let k := sample 100 [(2, 4); (4, 1000)] in
  let k1 := final (@ExceptionHandler nachos 1 k) in
  let k2 := switch_to 100 [(2, 5); (4, 1000)] k1 in
  fileSystem k1 = {["missing.txt"%string]} ∪ fileSystem k /\
  exists fid k3,
    @ExceptionHandler nachos 1 k2 = Done tt k3 /\
    In (EvAddFile {| of_name := "missing.txt" |} fid) (trace k3).
Proof.
  intros k. cbv zeta.
  assert (@returns_when nachos 1 k) as Hret
    by (split; [reflexivity | left; compute_done]).
  generalize (@handler_Done_final nachos 1 k nachos_codes_distinct Hret).
  generalize (final (@ExceptionHandler nachos 1 k)).
  intros k1 Hcreate.
  destruct (@Create_then_Open nachos k k1
              (switch_to 100 [(2, 5); (4, 1000)] k1)
              nachos_codes_distinct nachos_pc_regs_apart eq_refl Hcreate
              eq_refl eq_refl eq_refl eq_refl)
    as (Hfs & fid & k3 & Hrun & Htrace).
  split; [exact Hfs |].
  exists fid, k3. split; [exact Hrun |]. rewrite Htrace.
  apply in_or_app. right. apply in_or_app. left.
  right. right. left. reflexivity.
Defined.

(** [Exec("prog")]: process id 2 for a new thread. *)
Lemma Exec_spawns_witness :
  let k := sample 100 [(2, 2); (4, 2000); (5, 77)] in
  exists t pid k',
    @ExceptionHandler nachos 1 k = Done tt k' /\
    registers (machine k') 2 = pid /\
    pTable k' !! pid = Some t /\
    threads k' !! t = Some (spawned "prog" pid 77) /\
    threads k' !! 200 = Some child_thread.
Proof.
  intros k.
  destruct (@Exec_spawns nachos k nachos_codes_distinct
              nachos_pc_regs_apart eq_refl)
    as (t & pid & k' & Hrun & Hres & _ & Hfresh & Hpt & Hth & _).
  - compute_done.
  - exists t, pid, k'. split; [exact Hrun |]. split; [exact Hres |].
    split; [rewrite Hpt; apply lookup_insert_eq |].
    split; [rewrite Hth; apply lookup_insert_eq |].
    rewrite Hth. rewrite lookup_insert_ne; [reflexivity |].
    intros ->. discriminate Hfresh.
Defined.

(** [Exec("prog")], then [Join] on what [r2] holds. *)
Lemma Exec_then_Join_witness :
  let k := sample 100 [(2, 2); (4, 2000); (5, 77)] in
  let k1 := final (@ExceptionHandler nachos 1 k) in
  let k2 := switch_to 100 [(2, 3); (4, registers (machine k1) 2)] k1 in
  exists k3, @ExceptionHandler nachos 1 k2 = Stopped Blocked k3.
Proof.
  intros k. cbv zeta.
  assert (@returns_when nachos 1 k) as Hret
    by (split; [reflexivity | left; compute_done]).
  assert (user_string k (registers (machine k) 4) 256 ∈ fileSystem k)
    as Hfound by compute_done.
  generalize (@handler_Done_final nachos 1 k nachos_codes_distinct Hret).
  generalize (final (@ExceptionHandler nachos 1 k)).
  intros k1 Hexec.
  exact (@Exec_then_Join nachos k k1
           (switch_to 100 [(2, 3); (4, registers (machine k1) 2)] k1)
           nachos_codes_distinct nachos_pc_regs_apart eq_refl Hfound Hexec
           eq_refl eq_refl eq_refl eq_refl).
Defined.

(** [prog] runs [Exit(42)], then [main] runs [Join(1)]. *)
Lemma Exit_then_Join_witness :
  let k := sample 200 [(2, 1); (4, 42)] in
  let k1 := final (@ExceptionHandler nachos 1 k) in
  let k2 := switch_to 100 [(2, 3); (4, 1)] k1 in
  exists k3,
    @ExceptionHandler nachos 1 k2 = Done tt k3 /\
    registers (machine k3) 2 = 0.
Proof.
  intros k. cbv zeta.
  assert (@leaves_when nachos 1 k Finished) as Hleaves by (split; reflexivity).
  assert (is_Some (threads k !! currentThread k)) as Hth
    by now exists child_thread.
  generalize (@handler_Stopped_final nachos 1 k Finished
                nachos_codes_distinct Hleaves).
  generalize (final (@ExceptionHandler nachos 1 k)).
  intros k1 Hexit.
  exact (@Exit_then_Join nachos k k1
           (switch_to 100 [(2, 3); (4, 1)] k1) 1 nachos_codes_distinct
           nachos_pc_regs_apart eq_refl eq_refl Hth Hexit eq_refl eq_refl
           eq_refl eq_refl).
Defined.

(** [Read(3000, 3, ConsoleInput)], then [Write(3000, 3, ConsoleOutput)]:
    a, b, c come in and go out. *)
Lemma Read_then_Write_echoes_witness :
  let k := sample 100 [(2, 6); (4, 3000); (5, 3); (6, 0)] in
  let k1 := final (@ExceptionHandler nachos 1 k) in
  let k2 := switch_to 100 [(2, 7); (4, 3000); (5, 3); (6, 1)] k1 in
  exists k3,
    @ExceptionHandler nachos 1 k2 = Done tt k3 /\
    written (synchConsole k3) = ["a"; "b"; "c"]%byte.
Proof.
  intros k. cbv zeta.
  assert (@returns_when nachos 1 k) as Hret.
  { split; [reflexivity |]. right; left.
    split; [reflexivity |]. split; [compute_done |].
    intros _. compute_done. }
  assert (is_int (registers (machine k) 5)) as Hint by compute_done.
  assert (0 <= registers (machine k) 5) as Hpos by compute_done.
  generalize (@handler_Done_final nachos 1 k nachos_codes_distinct Hret).
  generalize (final (@ExceptionHandler nachos 1 k)).
  intros k1 Hread.
  destruct (@Read_then_Write_echoes nachos k k1
              (switch_to 100 [(2, 7); (4, 3000); (5, 3); (6, 1)] k1)
              nachos_codes_distinct nachos_pc_regs_apart eq_refl eq_refl
              Hint Hpos Hread eq_refl eq_refl eq_refl eq_refl eq_refl
              eq_refl)
    as (k3 & Hrun & Hout & _).
  exists k3. split; [exact Hrun | exact Hout].
Defined.

(** [Read(3000, 3, ConsoleInput)] returns, with 3 in [r2]. *)
Lemma console_result_is_size_witness :
  let k := sample 100 [(2, 6); (4, 3000); (5, 3); (6, 0)] in
  let k' := final (@ExceptionHandler nachos 1 k) in
  @ExceptionHandler nachos 1 k = Done tt k' /\
  registers (machine k') 2 = 3.
Proof.
  intros k. cbv zeta.
  assert (@returns_when nachos 1 k) as Hret.
  { split; [reflexivity |]. right; left.
    split; [reflexivity |]. split; [compute_done |].
    intros _. compute_done. }
  assert (is_int (registers (machine k) 5)) as Hint by compute_done.
  generalize (@handler_Done_final nachos 1 k nachos_codes_distinct Hret).
  generalize (final (@ExceptionHandler nachos 1 k)).
  intros k' Hdone. split; [exact Hdone |].
  apply (@console_result_is_size nachos k k' nachos_codes_distinct
           nachos_pc_regs_apart Hint (or_introl (conj eq_refl eq_refl))
           Hdone).
Defined.

(** [Read(3000, 3, ConsoleInput)]: the byte at 2999 and the byte at 3003
    are untouched. *)
Lemma Read_writes_only_user_buffer_witness :
  let k := sample 100 [(2, 6); (4, 3000); (5, 3); (6, 0)] in
  let k' := final (@ExceptionHandler nachos 1 k) in
  mainMemory (machine k') 2999 = mainMemory (machine k) 2999 /\
  mainMemory (machine k') 3003 = mainMemory (machine k) 3003.
Proof.
  intros k k'.
  destruct (@Read_writes_only_user_buffer nachos k nachos_codes_distinct
              eq_refl) as [Hout _].
  split; apply Hout; compute_done.
Defined.

(** [main] opens [prog]: the thread object of [prog] is as it was. *)
Lemma handler_isolation_witness :
  threads (final (@ExceptionHandler nachos 1
                    (sample 100 [(2, 5); (4, 2000)]))) !! 200
  = Some child_thread.
Proof.
  apply (@handler_isolation nachos 1 _ 200 child_thread).
  - discriminate.
  - reflexivity.
Defined.

(** [prog] has status 42 after its [Exit(42)]: by that [Exit]. *)
Lemma exit_status_only_by_Exit_witness :
  let k := sample 200 [(2, 1); (4, 42)] in
  threads k !! 200 ≫= exitStatus = Some 42 \/
  (@is_call nachos 1 k [1] /\ 200 = currentThread k /\
   42 = registers (machine k) 4).
Proof.
  intros k.
  apply (@exit_status_only_by_Exit nachos 1 k 200 42). reflexivity.
Defined.

(** The process table and the descriptor tables of the sample kernel are
    sound, and still are after [Exec("prog")] and [Open("prog")]. *)
Lemma pTable_ok_preserved_witness :
  pTable_ok (final (@ExceptionHandler nachos 1
                      (sample 100 [(2, 2); (4, 2000); (5, 77)]))).
Proof.
  apply (@pTable_ok_preserved nachos 1). apply sample_pTable_ok.
Defined.

Lemma tables_ok_preserved_witness :
  @tables_ok nachos
    (final (@ExceptionHandler nachos 1 (sample 100 [(2, 5); (4, 2000)]))).
Proof.
  apply (@tables_ok_preserved nachos 1). apply sample_tables_ok.
Defined.

(** [Read] on the console writes nothing to it; [Write] on the console
    output takes nothing from it. *)
Lemma console_directions_witness :
  (let k := sample 100 [(2, 6); (4, 3000); (5, 3); (6, 0)] in
   written (synchConsole (final (@ExceptionHandler nachos 1 k))) = []) /\
  (let k := sample 100 [(2, 7); (4, 1000); (5, 3); (6, 1)] in
   consumed (synchConsole (final (@ExceptionHandler nachos 1 k)))
   = 0%nat).
Proof.
  split; intros k.
  - destruct (@console_directions nachos k nachos_codes_distinct)
      as [Hread _].
    exact (Hread eq_refl).
  - destruct (@console_directions nachos k nachos_codes_distinct)
      as [_ Hwrite].
    exact (proj1 (Hwrite eq_refl)).
Defined.
